(** * Verification of nfl_survivor_pool_2024.py : optimize_survivor_pool

    The function builds a 0/1 integer program with pulp, hands it to the
    solver and reads the solution back into a list of metric records.
    This file embeds the program-building code and the read-back code as
    written, and treats the two things the repository does not define
    as parameters:
    - the solver ([prob.solve()] / [pulp.value]), constrained by the
      contract of an exact integer-program solver ([solver_ok]);
    - the iteration order of a Python [set] ([list(set(...))]), constrained
      to enumerate the elements of the list once each ([set_list_ok]).
    A brute-force exact solver ([Lp.bf_solve]) and a first-occurrence
    enumeration ([dedup]) are proved to meet these contracts; they
    instantiate the development on concrete tables. *)

From Stdlib Require Import ZArith QArith List String Ascii Bool Lia Sorting.Sorted.
Import ListNotations.
Open Scope Z_scope.
Open Scope string_scope.

(* ------------------------------------------------------------------ *)
(** ** Integer programs, as pulp represents them *)

Module Lp.

(** A variable of the program: [x[(week, team)]]. *)
Definition key : Type := (Z * string)%type.

Definition key_eqb (a b : key) : bool :=
  Z.eqb (fst a) (fst b) && String.eqb (snd a) (snd b).

Definition key_dec (a b : key) : {a = b} + {a <> b}.
Proof. decide equality; [apply string_dec | apply Z.eq_dec]. Defined.

Inductive Sense := LE | EQ.

(** A constraint [lpSum(terms) <= rhs] or [lpSum(terms) == rhs]. *)
Record Constraint := mkConstraint {
  c_terms : list (Z * key);
  c_sense : Sense;
  c_rhs : Z
}.

(** [LpProblem(..., LpMaximize)]: an objective to maximise and the
    constraints, in the order they were added. *)
Record Problem := mkProblem {
  lp_obj : list (Q * key);
  lp_cons : list Constraint
}.

(** pulp's status codes. *)
Inductive Status := Optimal | NotSolved | Infeasible | Unbounded | Undefined.

(** A solution: the value [pulp.value] reads for each variable. *)
Definition valuation : Type := key -> Z.

Fixpoint obj_eval (ts : list (Q * key)) (v : valuation) : Q :=
  match ts with
  | [] => 0%Q
  | (c, k) :: ts' => (c * inject_Z (v k) + obj_eval ts' v)%Q
  end.

Fixpoint lin_eval (ts : list (Z * key)) (v : valuation) : Z :=
  match ts with
  | [] => 0%Z
  | (c, k) :: ts' => (c * v k + lin_eval ts' v)%Z
  end.

Definition satb (v : valuation) (c : Constraint) : bool :=
  match c_sense c with
  | LE => Z.leb (lin_eval (c_terms c) v) (c_rhs c)
  | EQ => Z.eqb (lin_eval (c_terms c) v) (c_rhs c)
  end.

(** The variables of a problem: every key its objective or one of its
    constraints mentions (pulp collects them the same way). *)
Definition lp_vars (p : Problem) : list key :=
  nodup key_dec (map snd (lp_obj p) ++ flat_map (fun c => map snd (c_terms c)) (lp_cons p)).

Definition binaryb (v : valuation) (k : key) : bool :=
  Z.eqb (v k) 0 || Z.eqb (v k) 1.

(** A feasible point: every (binary) variable is 0 or 1 and every
    constraint holds. *)
Definition feasibleb (p : Problem) (v : valuation) : bool :=
  forallb (binaryb v) (lp_vars p) && forallb (satb v) (lp_cons p).

Definition objective (p : Problem) (v : valuation) : Q := obj_eval (lp_obj p) v.

(** The contract of an exact 0/1 solver for a maximisation problem: it
    reports [Optimal] whenever a feasible point exists, and when it does
    the point it returns is feasible and no feasible point has a larger
    objective. Nothing is promised about the values it leaves when the
    status is not [Optimal]. *)
Definition solver_ok (solve : Problem -> Status * valuation) : Prop :=
  forall p,
    ((exists v, feasibleb p v = true) -> fst (solve p) = Optimal) /\
    (fst (solve p) = Optimal ->
       feasibleb p (snd (solve p)) = true /\
       forall v, feasibleb p v = true -> Qle (objective p v) (objective p (snd (solve p)))).

(** *** A brute-force exact solver *)

Fixpoint all_bits (n : nat) : list (list Z) :=
  match n with
  | O => [[]]
  | S n' => flat_map (fun bs => [0%Z :: bs; 1%Z :: bs]) (all_bits n')
  end.

Fixpoint val_of (ks : list key) (bs : list Z) (k : key) : Z :=
  match ks, bs with
  | k' :: ks', b :: bs' => if key_eqb k k' then b else val_of ks' bs' k
  | _, _ => 0%Z
  end.

Fixpoint argmax (p : Problem) (ks : list key) (best : list Z) (cs : list (list Z)) : list Z :=
  match cs with
  | [] => best
  | c :: cs' =>
      if negb (Qle_bool (objective p (val_of ks c)) (objective p (val_of ks best)))
      then argmax p ks c cs' else argmax p ks best cs'
  end.

Definition bf_solve (p : Problem) : Status * valuation :=
  let ks := lp_vars p in
  match filter (fun bs => feasibleb p (val_of ks bs)) (all_bits (List.length ks)) with
  | [] => (Infeasible, fun _ => 0%Z)
  | c :: cs => (Optimal, val_of ks (argmax p ks c cs))
  end.

End Lp.

Import Lp.

(* ------------------------------------------------------------------ *)
(** ** Python and pandas pieces used by the function *)

(** The exceptions the function can raise: [max([])] raises
    [ValueError], [.iloc[0]] of an empty selection raises [IndexError]. *)
Inductive PyError := ValueError | IndexError.

Inductive result (A : Type) : Type :=
| Ok (a : A)
| Err (e : PyError).
Arguments Ok {A} a.
Arguments Err {A} e.

Definition bind {A B} (r : result A) (f : A -> result B) : result B :=
  match r with Ok a => f a | Err e => Err e end.
Notation "x <- r ;; k" := (bind r (fun x => k)) (at level 61, r at next level, right associativity).

(** A Python loop that appends one item per element and stops at the
    first exception. *)
Fixpoint map_res {A B} (f : A -> result B) (l : list A) : result (list B) :=
  match l with
  | [] => Ok []
  | a :: l' => b <- f a ;; bs <- map_res f l' ;; Ok (b :: bs)
  end.

(** [x in l] for a Python list of ints or of strings. *)
Definition mem_Z (x : Z) (l : list Z) : bool := existsb (Z.eqb x) l.
Definition mem_str (x : string) (l : list string) : bool := existsb (String.eqb x) l.

(** [Series.unique().tolist()]: distinct values in order of first
    appearance. *)
Fixpoint unique_aux (seen : list Z) (l : list Z) : list Z :=
  match l with
  | [] => []
  | x :: l' => if mem_Z x seen then unique_aux seen l' else x :: unique_aux (x :: seen) l'
  end.
Definition unique (l : list Z) : list Z := unique_aux [] l.

(** Python's [max] on a list; [None] stands for the [ValueError] of an
    empty list. *)
Definition py_max (l : list Z) : option Z :=
  match l with
  | [] => None
  | x :: l' => Some (fold_left Z.max l' x)
  end.

(** *** [f'{p:.4f}'] on a float, as the exact rational it denotes:
    rounded half to even at the fourth decimal. *)

Definition digit (d : Z) : ascii := ascii_of_N (48 + Z.to_N d).

Fixpoint dec_aux (fuel : nat) (n : Z) (acc : string) : string :=
  match fuel with
  | O => acc
  | S f =>
      let acc' := String (digit (n mod 10)) acc in
      if Z.ltb n 10 then acc' else dec_aux f (n / 10) acc'
  end.

(** Decimal digits of a natural number. *)
Definition dec_string (n : Z) : string := dec_aux (S (Z.to_nat (Z.log2 n))) n "".

(** Four digits, zero padded. *)
Definition pad4 (m : Z) : string :=
  String (digit ((m / 1000) mod 10)) (String (digit ((m / 100) mod 10))
  (String (digit ((m / 10) mod 10)) (String (digit (m mod 10)) ""))).

(** [a / d] rounded to the nearest integer, ties to even ([a >= 0, d > 0]). *)
Definition round_half_even (a d : Z) : Z :=
  let q := a / d in
  let r := a mod d in
  if Z.ltb (2 * r) d then q
  else if Z.ltb d (2 * r) then q + 1
  else if Z.even q then q else q + 1.

Definition fmt4 (x : Q) : string :=
  let n := round_half_even (Z.abs (Qnum x) * 10000) (Zpos (Qden x)) in
  (if Z.ltb (Qnum x) 0 then "-" else "") ++ dec_string (n / 10000) ++ "." ++ pad4 (n mod 10000).

(* ------------------------------------------------------------------ *)
(** ** The function [optimize_survivor_pool] *)

(** One row of [nfl_odds_df]. *)
Record Row := mkRow {
  Week : Z;
  HomeTeam : string;
  HomeProbability : Q;
  AwayTeam : string;
  AwayProbability : Q
}.

(** One dict appended to [metrics]. *)
Record Metric := mkMetric {
  m_week : Z;
  m_selected_team : string;
  m_opponent_team : string;
  m_selected_prob : Q;
  m_opponent_prob : Q;
  m_expected_value : Q;
  m_reason : string
}.

Definition reason (t : string) (p q : Q) : string :=
  "Selected " ++ t ++ " due to higher probability of " ++ fmt4 p
  ++ " compared to opponent's probability of " ++ fmt4 q.

Section Optimize.

(** [list(set(l))]: the enumeration order of a Python set. *)
Variable set_list : list string -> list string.
(** [prob.solve()] followed by [pulp.value] on each variable. *)
Variable solve : Problem -> Status * valuation.

Variable nfl_odds_df : list Row.
Variable current_week : Z.
Variable selected_teams : list string.
Variable optimization_duration : Z.

(** Lines 106-108. *)
Definition weeks : list Z := unique (map Week nfl_odds_df).

Definition remaining_weeks_upto (end_week : Z) : list Z :=
  filter (fun w => Z.leb current_week w && Z.leb w end_week) weeks.

(** Lines 109-111. *)
Definition teams : list string :=
  set_list (map HomeTeam nfl_odds_df ++ map AwayTeam nfl_odds_df).

Definition available_teams : list string :=
  filter (fun t => negb (mem_str t selected_teams)) teams.

Section Build.
Variable remaining_weeks : list Z.

(** Lines 114-115: the keys of the dict [x]. *)
Definition x_keys : list key :=
  flat_map (fun w => map (fun t => (w, t)) available_teams) remaining_weeks.

Definition in_x (k : key) : bool := existsb (key_eqb k) x_keys.

(** Lines 117-125: the objective. *)
Definition objective_terms : list (Q * key) :=
  flat_map (fun row =>
    if mem_Z (Week row) remaining_weeks &&
       (mem_str (HomeTeam row) available_teams && in_x (Week row, HomeTeam row)) &&
       (mem_str (AwayTeam row) available_teams && in_x (Week row, AwayTeam row))
    then [(HomeProbability row, (Week row, HomeTeam row));
          (AwayProbability row, (Week row, AwayTeam row))]
    else []) nfl_odds_df.

(** Lines 127-129: each team at most once. *)
Definition team_constraints : list Constraint :=
  map (fun t => mkConstraint
         (map (fun w => (1%Z, (w, t))) (filter (fun w => in_x (w, t)) remaining_weeks))
         LE 1) available_teams.

(** Lines 131-133: each week exactly one team. *)
Definition week_constraints : list Constraint :=
  map (fun w => mkConstraint
         (map (fun t => (1%Z, (w, t))) (filter (fun t => in_x (w, t)) available_teams))
         EQ 1) remaining_weeks.

Definition problem : Problem :=
  mkProblem objective_terms (team_constraints ++ week_constraints).

(** Lines 145-166: the record for a selected [(w, t)]. *)
Definition game_matches (w : Z) (t : string) (row : Row) : bool :=
  Z.eqb (Week row) w && (String.eqb (HomeTeam row) t || String.eqb (AwayTeam row) t).

Definition make_metric (w : Z) (t : string) : result Metric :=
  match find (game_matches w t) nfl_odds_df with
  | None => Err IndexError
  | Some g =>
      let home_team := HomeTeam g in
      let away_team := AwayTeam g in
      let p := if String.eqb t home_team then HomeProbability g else AwayProbability g in
      let q := if String.eqb t home_team then AwayProbability g else HomeProbability g in
      Ok (mkMetric w t (if String.eqb t home_team then away_team else home_team)
                   p q p (reason t p q))
  end.

(** Lines 141-166: the read-back loop. *)
Definition collect_metrics (v : valuation) : result (list Metric) :=
  rows <- map_res (fun w =>
            map_res (make_metric w)
              (filter (fun t => Z.eqb (v (w, t)) 1) available_teams)) remaining_weeks ;;
  Ok (List.concat rows).

End Build.

(** Lines 106-108: the horizon [remaining_weeks]; [None] when [max]
    raises on a table without rows. *)
Definition horizon : option (list Z) :=
  match py_max weeks with
  | None => None
  | Some max_week =>
      let end_week := Z.min (current_week + optimization_duration - 1) max_week in
      Some (remaining_weeks_upto end_week)
  end.

(** The whole function (the [print] of a non-optimal status is a
    side effect on stdout only and is not part of the result). *)
Definition optimize_survivor_pool : result (list Metric) :=
  match horizon with
  | None => Err ValueError
  | Some remaining_weeks =>
      let sol := solve (problem remaining_weeks) in
      collect_metrics remaining_weeks (snd sol)
  end.

End Optimize.

(** First-occurrence enumeration of the distinct strings of a list: one
    order a Python set may iterate in. *)
Fixpoint dedup_aux (seen : list string) (l : list string) : list string :=
  match l with
  | [] => []
  | x :: l' => if mem_str x seen then dedup_aux seen l' else x :: dedup_aux (x :: seen) l'
  end.
Definition dedup (l : list string) : list string := dedup_aux [] l.

(** [list(set(l))] contract: each element of [l] exactly once. *)
Definition set_list_ok (set_list : list string -> list string) : Prop :=
  forall l, NoDup (set_list l) /\ forall t, In t (set_list l) <-> In t l.

(** ** Notions used to state the claims *)

(** A decimal digit character. *)
Definition is_digit (c : ascii) : bool :=
  (48 <=? N_of_ascii c)%N && (N_of_ascii c <=? 57)%N.

Fixpoint all_digits (s : string) : bool :=
  match s with
  | EmptyString => true
  | String c s' => is_digit c && all_digits s'
  end.

(** A fixed-point rendering with exactly four decimals: an optional
    minus sign, a non-empty run of digits, a dot, four digits. *)
Definition fixed_point4 (s : string) : Prop :=
  exists sgn ip fp, s = sgn ++ ip ++ "." ++ fp /\ (sgn = "" \/ sgn = "-") /\
    ip <> "" /\ all_digits ip = true /\ String.length fp = 4%nat /\ all_digits fp = true.

(** The [(week, team)] pairs of a plan. *)
Definition plan_keys (ms : list Metric) : list key :=
  map (fun m => (m_week m, m_selected_team m)) ms.

(** Sum of the selected teams' probabilities over a plan. *)
Definition plan_total (ms : list Metric) : Q :=
  fold_right Qplus 0%Q (map m_selected_prob ms).

(** The 0/1 point of the program that selects exactly the pairs of [asg]. *)
Definition indicator (asg : list key) : valuation :=
  fun k => if existsb (key_eqb k) asg then 1 else 0.

(** An assignment of the program's shape: one team per horizon week,
    each team drawn from [avail] and used at most once. *)
Definition assignment_ok (rem : list Z) (avail : list string) (asg : list key) : Prop :=
  Forall (fun k => In (fst k) rem /\ In (snd k) avail) asg /\
  NoDup (map fst asg) /\ NoDup (map snd asg) /\
  (forall w, In w rem -> In w (map fst asg)).

(** The spec's edge weight of [(w, t)]: the success probability of [t]
    in its event of week [w], when [t] is not excluded and plays that
    week. *)
Definition spec_edge_weight (df : list Row) (sel : list string) (w : Z) (t : string)
  : option Q :=
  if mem_str t sel then None else
  match find (game_matches w t) df with
  | Some g => Some (if String.eqb t (HomeTeam g) then HomeProbability g else AwayProbability g)
  | None => None
  end.

Definition sumZ (l : list Z) : Z := fold_right Z.add 0 l.

(** The constraints of the program of lines 113-133, read as
    conditions on a point [v]: binary variables, each available team in
    at most one horizon week, each horizon week exactly one available
    team. *)
Definition feasible_point (set_list : list string -> list string) (df : list Row)
  (sel : list string) (rem : list Z) (v : valuation) : Prop :=
  let avail := available_teams set_list df sel in
  (forall w t, In w rem -> In t avail -> v (w, t) = 0 \/ v (w, t) = 1) /\
  (forall t, In t avail -> sumZ (map (fun w => v (w, t)) rem) <= 1) /\
  (forall w, In w rem -> sumZ (map (fun t => v (w, t)) avail) = 1).

(** ** Concrete tables *)

(** The example scenario of the spec: week 1 A 0.9 vs B 0.5, week 2
    A 0.6 vs B 0.8. *)
Definition table_example : list Row :=
  [mkRow 1 "A" (9 # 10) "B" (5 # 10); mkRow 2 "A" (6 # 10) "B" (8 # 10)].

(** One week, two games; B will be excluded. *)
Definition table_excluded_opponent : list Row :=
  [mkRow 1 "A" (9 # 10) "B" (5 # 10); mkRow 1 "C" (6 # 10) "D" (4 # 10)].

(** Week 1's teams A and B will both be excluded. *)
Definition table_empty_week : list Row :=
  [mkRow 1 "A" (9 # 10) "B" (5 # 10); mkRow 2 "C" (6 # 10) "D" (4 # 10)].

(** A plays twice in week 1. *)
Definition table_duplicate : list Row :=
  [mkRow 1 "A" (6 # 10) "B" (4 # 10); mkRow 1 "A" (7 # 10) "C" (3 # 10)].

(** Over two weeks the optimum takes B in week 1, where B is the
    weaker side. *)
Definition table_weaker_pick : list Row :=
  [mkRow 1 "A" (6 # 10) "B" (4 # 10); mkRow 2 "A" (9 # 10) "B" (1 # 10)].

(** A solver that meets [solver_ok] and, on a program without a feasible
    point, reports its status and leaves every variable at 1. *)
Definition ones_when_infeasible (p : Problem) : Status * valuation :=
  match bf_solve p with
  | (Optimal, v) => (Optimal, v)
  | (st, _) => (st, fun _ => 1)
  end.

(* ------------------------------------------------------------------ *)
(** ** Fetching the odds: [get_weekly_odds] and [get_all_weeks_odds_df] *)

(** *** [datetime] dates, as CPython's [datetime] module computes them.
    A [datetime] with a zero time of day is its proleptic Gregorian
    ordinal (day 1 is 0001-01-01); the values in range are
    [1 .. MAXORDINAL]. *)

Definition MAXORDINAL : Z := 3652059.
Definition DI400Y : Z := 146097.
Definition DI100Y : Z := 36524.
Definition DI4Y : Z := 1461.

Definition DAYS_IN_MONTH : list Z := [-1; 31; 28; 31; 30; 31; 30; 31; 31; 30; 31; 30; 31].
Definition DAYS_BEFORE_MONTH : list Z := [-1; 0; 31; 59; 90; 120; 151; 181; 212; 243; 273; 304; 334].

Definition is_leap (year : Z) : bool :=
  Z.eqb (year mod 4) 0 && (negb (Z.eqb (year mod 100) 0) || Z.eqb (year mod 400) 0).

Definition days_before_year (year : Z) : Z :=
  let y := year - 1 in y * 365 + y / 4 - y / 100 + y / 400.

Definition days_before_month (year month : Z) : Z :=
  nth (Z.to_nat month) DAYS_BEFORE_MONTH 0 +
  (if Z.ltb 2 month && is_leap year then 1 else 0).

(** [_ymd2ord]. *)
Definition ymd2ord (year month day : Z) : Z :=
  days_before_year year + days_before_month year month + day.

(** [_ord2ymd]. *)
Definition ord2ymd (n0 : Z) : Z * Z * Z :=
  let n := n0 - 1 in
  let n400 := n / DI400Y in let n := n mod DI400Y in
  let year := n400 * 400 + 1 in
  let n100 := n / DI100Y in let n := n mod DI100Y in
  let n4 := n / DI4Y in let n := n mod DI4Y in
  let n1 := n / 365 in let n := n mod 365 in
  let year := year + n100 * 100 + n4 * 4 + n1 in
  if Z.eqb n1 4 || Z.eqb n100 4 then (year - 1, 12, 31) else
  let leapyear := Z.eqb n1 3 && (negb (Z.eqb n4 24) || Z.eqb n100 3) in
  let month := Z.shiftr (n + 50) 5 in
  let preceding := nth (Z.to_nat month) DAYS_BEFORE_MONTH 0 +
                   (if Z.ltb 2 month && leapyear then 1 else 0) in
  let '(month, preceding) :=
    if Z.ltb n preceding then
      (month - 1, preceding - (nth (Z.to_nat (month - 1)) DAYS_IN_MONTH 0 +
                               (if Z.eqb (month - 1) 2 && leapyear then 1 else 0)))
    else (month, preceding) in
  (year, month, n - preceding + 1).

(** [datetime + timedelta(days=k)]: [OverflowError] out of range. *)
Definition add_days (o k : Z) : option Z :=
  if Z.ltb 0 (o + k) && Z.leb (o + k) MAXORDINAL then Some (o + k) else None.

(** ['%0wd' % x] for [0 <= x < 10 ^ w]. *)
Fixpoint zpad (w : nat) (x : Z) : string :=
  match w with
  | O => ""
  | S w' => zpad w' (x / 10) ++ String (digit (x mod 10)) ""
  end.

(** [datetime.isoformat()] of a [datetime] at midnight. *)
Definition isoformat (o : Z) : string :=
  let '(y, m, d) := ord2ymd o in
  zpad 4 y ++ "-" ++ zpad 2 m ++ "-" ++ zpad 2 d ++ "T00:00:00".

(** *** The JSON the odds API returns, with the keys the code reads.
    A key read with [.get(k, [])] is an option: [None] when absent. *)

Record Outcome := mkOutcome { o_name : string; o_price : Q }.
Record Market := mkMarket { mk_key : string; mk_outcomes : option (list Outcome) }.
Record Bookmaker := mkBookmaker { bm_key : string; bm_markets : option (list Market) }.
Record Game := mkGame {
  home_team : string;
  away_team : string;
  commence_time : string;
  bookmakers : option (list Bookmaker)
}.

(** [requests.get(...)]: the fields of the response the code reads;
    [response.json()] is the list of games of the API's reply. *)
Record Response := mkResponse {
  status_code : Z;
  resp_json : list Game;
  resp_text : string
}.

(** The exceptions of the fetching code. *)
Inductive FetchError := OverflowError | KeyError.

Inductive fresult (A : Type) : Type :=
| FOk (a : A)
| FErr (e : FetchError).
Arguments FOk {A} a.
Arguments FErr {A} e.

Definition BASE_URL : string :=
  "https://api.the-odds-api.com/v4/sports/americanfootball_nfl/odds".
Definition API_KEY : string := "your_api_key".

(** [datetime.datetime(2024, 9, 5)]. *)
Definition season_start : Z := ymd2ord 2024 9 5.

(** Lines 26-28: [start_date] and [end_date] of a week, [None] for the
    [OverflowError] of a date out of range. *)
Definition week_dates (week_number : Z) : option (Z * Z) :=
  match add_days season_start (7 * (week_number - 1)) with
  | None => None
  | Some start_date =>
      match add_days start_date 7 with
      | None => None
      | Some end_date => Some (start_date, end_date)
      end
  end.

(** Lines 30-38. *)
Definition weekly_params (api_key : string) (start_date end_date : Z)
  : list (string * string) :=
  [("apiKey", api_key); ("regions", "us"); ("markets", "h2h,spreads,totals");
   ("oddsFormat", "decimal"); ("bookmakers", "draftkings");
   ("commenceTimeFrom", isoformat start_date ++ "Z");
   ("commenceTimeTo", isoformat end_date ++ "Z")].

Section Fetch.

(** [requests.get(url, params=...)]. *)
Variable http_get : string -> list (string * string) -> Response.

(** Lines 15-46 (the [print] of a failure goes to stdout only). *)
Definition get_weekly_odds (api_key : string) (week_number : Z)
  : fresult (option (list Game)) :=
  match week_dates week_number with
  | None => FErr OverflowError
  | Some (start_date, end_date) =>
      let response := http_get BASE_URL (weekly_params api_key start_date end_date) in
      if Z.eqb (status_code response) 200 then FOk (Some (resp_json response))
      else FOk None
  end.

End Fetch.

(** [d.get(k, [])]. *)
Definition get_list {A} (o : option (list A)) : list A :=
  match o with Some l => l | None => [] end.

(** Lines 78-82: the loop over the outcomes, on the pair
    ([Home Team Moneyline], [Away Team Moneyline]). *)
Definition scan_outcomes (home away : string) (st : option Q * option Q)
  (outcomes : list Outcome) : option Q * option Q :=
  fold_left (fun st outcome =>
    if String.eqb (o_name outcome) home then (Some (o_price outcome), snd st)
    else if String.eqb (o_name outcome) away then (fst st, Some (o_price outcome))
    else st) outcomes st.

(** Lines 76-82. *)
Definition scan_markets (home away : string) (st : option Q * option Q)
  (markets : list Market) : option Q * option Q :=
  fold_left (fun st market =>
    if String.eqb (mk_key market) "h2h"
    then scan_outcomes home away st (get_list (mk_outcomes market))
    else st) markets st.

(** Lines 74-82. *)
Definition scan_bookmakers (home away : string) (st : option Q * option Q)
  (bms : list Bookmaker) : option Q * option Q :=
  fold_left (fun st bookmaker =>
    if String.eqb (bm_key bookmaker) "draftkings"
    then scan_markets home away st (get_list (bm_markets bookmaker))
    else st) bms st.

(** The dict [game_data] of lines 66-82. *)
Record GameData := mkGameData {
  gd_week : Z;
  gd_home : string;
  gd_away : string;
  gd_commence : string;
  gd_home_ml : option Q;
  gd_away_ml : option Q
}.

Definition game_data (week : Z) (game : Game) : GameData :=
  let mls := scan_bookmakers (home_team game) (away_team game) (None, None)
               (get_list (bookmakers game)) in
  mkGameData week (home_team game) (away_team game) (commence_time game) (fst mls) (snd mls).

(** A float of the probability columns: a number, [inf] or [NaN]. *)
Inductive PFloat := PNum (q : Q) | PInf | PNaN.

(** [1 / x] on one cell of a float column: [None] is [NaN] and [1 / 0]
    is [inf]. *)
Definition inv_cell (x : option Q) : PFloat :=
  match x with
  | None => PNaN
  | Some p => if Qeq_bool p 0 then PInf else PNum (/ p)
  end.

(** Lines 86-87: [1 / column], cell by cell. A column with a number is
    stored as floats, [NaN] for [None]; a column of [None] only has the
    object dtype, where pandas' masked arithmetic leaves [NaN] at every
    [None]. Either way a missing price gives [NaN]. *)
Definition inv_column (col : list (option Q)) : list PFloat :=
  map inv_cell col.

(** One row of the returned frame (line 88). *)
Record OddsRow := mkOddsRow {
  od_week : Z;
  od_home : string;
  od_home_prob : PFloat;
  od_away : string;
  od_away_prob : PFloat
}.

Definition season_weeks : list Z := map Z.of_nat (seq 1 18).

Section AllWeeks.

Variable http_get : string -> list (string * string) -> Response.
Variable api_key : string.

(** Lines 63-83 for one week: nothing is appended when the request
    failed ([None]) or returned an empty list. *)
Definition week_rows (week : Z) : fresult (list GameData) :=
  match get_weekly_odds http_get api_key week with
  | FErr e => FErr e
  | FOk None => FOk []
  | FOk (Some games) => FOk (map (game_data week) games)
  end.

(** Lines 61-83: [all_odds]. *)
Fixpoint collect_weeks (ws : list Z) : fresult (list GameData) :=
  match ws with
  | [] => FOk []
  | w :: ws' =>
      match week_rows w with
      | FErr e => FErr e
      | FOk rows =>
          match collect_weeks ws' with
          | FErr e => FErr e
          | FOk rest => FOk (List.app rows rest)
          end
      end
  end.

(** Lines 85-88. [pd.DataFrame([])] has no columns, so the read of
    ['Home Team Moneyline'] raises [KeyError]. *)
Definition get_all_weeks_odds_df : fresult (list OddsRow) :=
  match collect_weeks season_weeks with
  | FErr e => FErr e
  | FOk [] => FErr KeyError
  | FOk all_odds =>
      let home_prob := inv_column (map gd_home_ml all_odds) in
      let away_prob := inv_column (map gd_away_ml all_odds) in
      FOk (map (fun '(gd, (hp, ap)) =>
                  mkOddsRow (gd_week gd) (gd_home gd) hp (gd_away gd) ap)
               (combine all_odds (combine home_prob away_prob)))
  end.

End AllWeeks.

(** A frame whose probabilities are all numbers, as the [Row]s
    [optimize_survivor_pool] reads. *)
Definition to_row (r : OddsRow) : option Row :=
  match od_home_prob r, od_away_prob r with
  | PNum p, PNum q => Some (mkRow (od_week r) (od_home r) p (od_away r) q)
  | _, _ => None
  end.

Fixpoint numeric_rows (df : list OddsRow) : option (list Row) :=
  match df with
  | [] => Some []
  | r :: df' =>
      match to_row r, numeric_rows df' with
      | Some row, Some rows => Some (row :: rows)
      | _, _ => None
      end
  end.

(** *** [optimize_survivor_pool] on the frame as fetched

    The frame [get_all_weeks_odds_df] returns (and the script passes on)
    holds float probabilities: [NaN] for a missing price and [inf] for a
    zero price. The embedding below reads that frame, [OddsRow]s; on a
    frame of numbers it is the embedding over [Row]s above. *)

(** [f"{x:.4f}"] on a float of the probability columns. *)
Definition fmtf (x : PFloat) : string :=
  match x with
  | PNum q => fmt4 q
  | PInf => "inf"
  | PNaN => "nan"
  end.

Definition reason_f (t : string) (p q : PFloat) : string :=
  "Selected " ++ t ++ " due to higher probability of " ++ fmtf p
  ++ " compared to opponent's probability of " ++ fmtf q.

(** One dict appended to [metrics], with float probabilities. *)
Record FMetric := mkFMetric {
  f_week : Z;
  f_selected_team : string;
  f_opponent_team : string;
  f_selected_prob : PFloat;
  f_opponent_prob : PFloat;
  f_expected_value : PFloat;
  f_reason : string
}.

(** The program handed to the solver, its objective with float
    coefficients. *)
Record FProblem := mkFProblem {
  fp_obj : list (PFloat * key);
  fp_cons : list Constraint
}.

(** The [Week], [Home Team] and [Away Team] columns of a row: all that
    lines 106-115 and 127-133 read. The probability fields of the [Row]
    are placeholders that nothing there reads. *)
Definition frame_columns (r : OddsRow) : Row :=
  mkRow (od_week r) (od_home r) 0 (od_away r) 0.

Section OptimizeFrame.

Variable set_list : list string -> list string.
Variable solve : FProblem -> Status * valuation.

Variable nfl_odds_df : list OddsRow.
Variable current_week : Z.
Variable selected_teams : list string.
Variable optimization_duration : Z.

(** Lines 109-111. *)
Definition available_teams_f : list string :=
  available_teams set_list (map frame_columns nfl_odds_df) selected_teams.

Section BuildF.
Variable remaining_weeks : list Z.

Definition in_x_f (k : key) : bool :=
  in_x set_list (map frame_columns nfl_odds_df) selected_teams remaining_weeks k.

(** Lines 117-125: the objective. *)
Definition objective_terms_f : list (PFloat * key) :=
  flat_map (fun row =>
    if mem_Z (od_week row) remaining_weeks &&
       (mem_str (od_home row) available_teams_f && in_x_f (od_week row, od_home row)) &&
       (mem_str (od_away row) available_teams_f && in_x_f (od_week row, od_away row))
    then [(od_home_prob row, (od_week row, od_home row));
          (od_away_prob row, (od_week row, od_away row))]
    else []) nfl_odds_df.

(** Lines 113-133. *)
Definition problem_f : FProblem :=
  mkFProblem objective_terms_f
    (team_constraints set_list (map frame_columns nfl_odds_df) selected_teams remaining_weeks ++
     week_constraints set_list (map frame_columns nfl_odds_df) selected_teams remaining_weeks).

(** Lines 145-166. *)
Definition game_matches_f (w : Z) (t : string) (row : OddsRow) : bool :=
  Z.eqb (od_week row) w && (String.eqb (od_home row) t || String.eqb (od_away row) t).

Definition make_metric_f (w : Z) (t : string) : result FMetric :=
  match find (game_matches_f w t) nfl_odds_df with
  | None => Err IndexError
  | Some g =>
      let home_team := od_home g in
      let away_team := od_away g in
      let p := if String.eqb t home_team then od_home_prob g else od_away_prob g in
      let q := if String.eqb t home_team then od_away_prob g else od_home_prob g in
      Ok (mkFMetric w t (if String.eqb t home_team then away_team else home_team)
                    p q p (reason_f t p q))
  end.

(** Lines 141-166: the read-back loop. *)
Definition collect_metrics_f (v : valuation) : result (list FMetric) :=
  rows <- map_res (fun w =>
            map_res (make_metric_f w)
              (filter (fun t => Z.eqb (v (w, t)) 1) available_teams_f)) remaining_weeks ;;
  Ok (List.concat rows).

End BuildF.

(** Lines 106-168. *)
Definition optimize_survivor_pool_f : result (list FMetric) :=
  match horizon (map frame_columns nfl_odds_df) current_week optimization_duration with
  | None => Err ValueError
  | Some remaining_weeks =>
      let sol := solve (problem_f remaining_weeks) in
      collect_metrics_f remaining_weeks (snd sol)
  end.

End OptimizeFrame.

(** The objective's coefficients as rationals, when all are numbers. *)
Fixpoint numeric_obj (ts : list (PFloat * key)) : option (list (Q * key)) :=
  match ts with
  | [] => Some []
  | (PNum c, k) :: ts' => option_map (cons (c, k)) (numeric_obj ts')
  | _ :: _ => None
  end.

(** A solver of programs with rational coefficients, run on a program
    whose objective coefficients are all numbers; what CBC makes of a
    [NaN] or [inf] coefficient is not modelled, and this one gives up on
    them. *)
Definition numeric_solver (solve : Problem -> Status * valuation) (p : FProblem)
  : Status * valuation :=
  match numeric_obj (fp_obj p) with
  | Some obj => solve (mkProblem obj (fp_cons p))
  | None => (NotSolved, fun _ => 0)
  end.

Definition bf_solve_f : FProblem -> Status * valuation := numeric_solver bf_solve.



(** The arguments of the call on lines 181-182. *)
Definition main_current_week : Z := 1.
Definition main_selected_teams : list string := [].
Definition main_optimization_duration : Z := 14.

(** The DraftKings [h2h] outcomes of a game, in the order the loops of
    lines 74-78 visit them. *)
Definition dk_h2h_outcomes (game : Game) : list Outcome :=
  flat_map (fun b =>
    if String.eqb (bm_key b) "draftkings"
    then flat_map (fun m =>
           if String.eqb (mk_key m) "h2h" then get_list (mk_outcomes m) else [])
         (get_list (bm_markets b))
    else []) (get_list (bookmakers game)).

(** The last element of a list. *)
Definition last_opt {A} (l : list A) : option A :=
  match rev l with [] => None | x :: _ => Some x end.

(** The games a week's request returned: [[]] when it failed. *)
Definition fetched_games (http_get : string -> list (string * string) -> Response)
  (api_key : string) (week : Z) : list Game :=
  match get_weekly_odds http_get api_key week with
  | FOk (Some games) => games
  | _ => []
  end.

(** All [game_data] dicts of the season, week by week. *)
Definition season_game_data (http_get : string -> list (string * string) -> Response)
  (api_key : string) : list GameData :=
  flat_map (fun w => map (game_data w) (fetched_games http_get api_key w)) season_weeks.

(** The price of the last outcome of [os] that [p] accepts. *)
Definition last_price (p : Outcome -> bool) (os : list Outcome) : option Q :=
  option_map o_price (last_opt (filter p os)).

(** A sample API: DraftKings and another bookmaker for a week-1 game,
    one game in week 2, every other week answered with 404. *)
Definition sample_game_week1 : Game :=
  mkGame "A" "B" "2024-09-06T00:20:00Z"
    (Some [mkBookmaker "fanduel" (Some [mkMarket "h2h" (Some [mkOutcome "A" (3 # 2)])]);
           mkBookmaker "draftkings"
             (Some [mkMarket "spreads" (Some [mkOutcome "A" (19 # 10)]);
                    mkMarket "h2h" (Some [mkOutcome "A" (5 # 4); mkOutcome "B" (4 # 1)])])]).

Definition sample_game_week2 : Game :=
  mkGame "C" "A" "2024-09-15T17:00:00Z"
    (Some [mkBookmaker "draftkings"
             (Some [mkMarket "h2h" (Some [mkOutcome "A" (2 # 1); mkOutcome "C" (2 # 1)])])]).

Definition param_is (k v : string) (ps : list (string * string)) : bool :=
  existsb (fun kv => String.eqb (fst kv) k && String.eqb (snd kv) v) ps.

Definition sample_http (url : string) (ps : list (string * string)) : Response :=
  if param_is "commenceTimeFrom" "2024-09-05T00:00:00Z" ps
  then mkResponse 200 [sample_game_week1] ""
  else if param_is "commenceTimeFrom" "2024-09-12T00:00:00Z" ps
  then mkResponse 200 [sample_game_week2] ""
  else mkResponse 404 [] "Not Found".

(** An API that answers for week 1 only, with one game whose DraftKings
    [h2h] market prices the home team A at 10/9 and has no price for
    the away team B. *)
Definition nan_game : Game :=
  mkGame "A" "B" "2024-09-06T00:20:00Z"
    (Some [mkBookmaker "draftkings"
             (Some [mkMarket "h2h" (Some [mkOutcome "A" (10 # 9)])])]).

Definition nan_http (url : string) (ps : list (string * string)) : Response :=
  if param_is "commenceTimeFrom" "2024-09-05T00:00:00Z" ps
  then mkResponse 200 [nan_game] ""
  else mkResponse 404 [] "Not Found".

(** The frame [get_all_weeks_odds_df] returns on [nan_http]. *)
Definition nan_frame : list OddsRow :=
  [mkOddsRow 1 "A" (PNum (9 # 10)) "B" PNaN].

(** Sum of a list of rationals. *)
Definition Qsum (l : list Q) : Q := fold_right Qplus 0%Q l.

(** The spec's weight of [(w, t)], [0] when [t] is excluded or does not
    play in week [w]. *)
Definition weight_or_0 (df : list Row) (sel : list string) (k : key) : Q :=
  match spec_edge_weight df sel (fst k) (snd k) with Some p => p | None => 0%Q end.

(** Total success probability of an assignment, by the spec's weights. *)
Definition spec_total (df : list Row) (sel : list string) (asg : list key) : Q :=
  Qsum (map (weight_or_0 df sel) asg).

(** What row [g] adds to the weight of [(w, t)]: the probability of [t]
    in [g] when [g] is a game of [t] in week [w]. *)
Definition row_weight (g : Row) (k : key) : Q :=
  if game_matches (fst k) (snd k) g
  then (if String.eqb (snd k) (HomeTeam g) then HomeProbability g else AwayProbability g)
  else 0%Q.

(* ================================================================== *)
(** * Proofs *)

(** ** The integer-program layer *)

Module LpFacts.

Lemma key_eqb_eq : forall a b, key_eqb a b = true <-> a = b.
Proof.
  intros [w1 t1] [w2 t2]; unfold key_eqb; simpl.
  rewrite andb_true_iff, Z.eqb_eq, String.eqb_eq.
  split; [intros [-> ->]; reflexivity | intros H; inversion H; auto].
Qed.

Lemma obj_eval_ext : forall ts v1 v2,
  (forall k, In k (map snd ts) -> v1 k = v2 k) -> obj_eval ts v1 = obj_eval ts v2.
Proof.
  induction ts as [|[c k] ts IH]; intros v1 v2 H; simpl; [reflexivity|].
  rewrite (H k) by (left; reflexivity).
  rewrite (IH v1 v2) by (intros; apply H; right; assumption). reflexivity.
Qed.

Lemma lin_eval_ext : forall ts v1 v2,
  (forall k, In k (map snd ts) -> v1 k = v2 k) -> lin_eval ts v1 = lin_eval ts v2.
Proof.
  induction ts as [|[c k] ts IH]; intros v1 v2 H; simpl; [reflexivity|].
  rewrite (H k) by (left; reflexivity).
  rewrite (IH v1 v2) by (intros; apply H; right; assumption). reflexivity.
Qed.

Lemma val_of_map : forall ks (v : valuation) k,
  In k ks -> val_of ks (map v ks) k = v k.
Proof.
  induction ks as [|k' ks IH]; intros v k Hin; simpl in *; [contradiction|].
  destruct (key_eqb k k') eqn:E.
  - apply key_eqb_eq in E; subst; reflexivity.
  - destruct Hin as [->|Hin].
    + assert (key_eqb k k = true) by (apply key_eqb_eq; reflexivity). congruence.
    + apply IH; assumption.
Qed.

Lemma all_bits_length : forall n bs, In bs (all_bits n) -> List.length bs = n.
Proof.
  induction n as [|n IH]; simpl; intros bs H.
  - destruct H as [<-|[]]; reflexivity.
  - apply in_flat_map in H as [bs' [Hin H]].
    destruct H as [<-|[<-|[]]]; simpl; f_equal; apply IH; assumption.
Qed.

Lemma all_bits_complete : forall bs,
  Forall (fun b => b = 0 \/ b = 1) bs -> In bs (all_bits (List.length bs)).
Proof.
  induction bs as [|b bs IH]; intros H; simpl; [left; reflexivity|].
  inversion H as [|? ? Hb Hbs]; subst.
  apply in_flat_map. exists bs. split; [apply IH; assumption|].
  destruct Hb as [->| ->]; simpl; auto.
Qed.

(** Every key of the objective and of the constraints is a variable. *)
Lemma obj_keys_vars : forall p k, In k (map snd (lp_obj p)) -> In k (lp_vars p).
Proof.
  intros p k H; unfold lp_vars; apply nodup_In, in_or_app; left; assumption.
Qed.

Lemma cons_keys_vars : forall p c k,
  In c (lp_cons p) -> In k (map snd (c_terms c)) -> In k (lp_vars p).
Proof.
  intros p c k Hc H; unfold lp_vars; apply nodup_In, in_or_app; right.
  apply in_flat_map; eauto.
Qed.

Lemma forallb_ext_in {A} : forall (f g : A -> bool) l,
  (forall a, In a l -> f a = g a) -> forallb f l = forallb g l.
Proof.
  intros f g l H; induction l as [|a l IH]; simpl; [reflexivity|].
  rewrite (H a) by (left; reflexivity).
  rewrite IH by (intros; apply H; right; assumption). reflexivity.
Qed.

(** A problem sees a valuation only through its variables. *)
Lemma feasibleb_ext : forall p v1 v2,
  (forall k, In k (lp_vars p) -> v1 k = v2 k) -> feasibleb p v1 = feasibleb p v2.
Proof.
  intros p v1 v2 H; unfold feasibleb; f_equal.
  - apply forallb_ext_in. intros k Hk; unfold binaryb; rewrite (H k Hk); reflexivity.
  - apply forallb_ext_in. intros c Hc; unfold satb.
    rewrite (lin_eval_ext (c_terms c) v1 v2)
      by (intros k Hk; apply H; eapply cons_keys_vars; eauto).
    reflexivity.
Qed.

Lemma objective_ext : forall p v1 v2,
  (forall k, In k (lp_vars p) -> v1 k = v2 k) -> objective p v1 = objective p v2.
Proof.
  intros p v1 v2 H; unfold objective; apply obj_eval_ext.
  intros k Hk; apply H, obj_keys_vars; assumption.
Qed.

Lemma argmax_in : forall p ks best cs, In (argmax p ks best cs) (best :: cs).
Proof.
  intros p ks best cs; revert best; induction cs as [|c cs IH]; intros best; simpl.
  - left; reflexivity.
  - destruct (negb _).
    + specialize (IH c); simpl in IH; tauto.
    + specialize (IH best); simpl in IH; tauto.
Qed.

Lemma argmax_max : forall p ks best cs c, In c (best :: cs) ->
  Qle (objective p (val_of ks c)) (objective p (val_of ks (argmax p ks best cs))).
Proof.
  intros p ks best cs; revert best; induction cs as [|c' cs IH]; intros best c Hc; simpl.
  - destruct Hc as [<-|[]]; apply Qle_refl.
  - destruct (Qle_bool (objective p (val_of ks c')) (objective p (val_of ks best))) eqn:E;
      simpl.
    + apply Qle_bool_iff in E.
      destruct Hc as [<-|[<-|Hc]].
      * apply IH; left; reflexivity.
      * eapply Qle_trans; [exact E|]. apply IH; left; reflexivity.
      * apply IH; right; assumption.
    + assert (Hlt : Qlt (objective p (val_of ks best)) (objective p (val_of ks c'))).
      { apply Qnot_le_lt; intros Hle; apply Qle_bool_iff in Hle; congruence. }
      destruct Hc as [<-|[<-|Hc]].
      * eapply Qle_trans; [apply Qlt_le_weak; exact Hlt|]. apply IH; left; reflexivity.
      * apply IH; left; reflexivity.
      * apply IH; right; assumption.
Qed.

(** The brute-force solver meets the contract of an exact solver. *)
Theorem bf_solve_ok : solver_ok bf_solve.
Proof.
  intros p. unfold bf_solve.
  set (ks := lp_vars p).
  assert (Hcomplete : forall v, feasibleb p v = true ->
            In (map v ks) (filter (fun bs => feasibleb p (val_of ks bs)) (all_bits (List.length ks)))
            /\ objective p (val_of ks (map v ks)) = objective p v).
  { intros v Hv.
    assert (Hag : forall k, In k (lp_vars p) -> val_of ks (map v ks) k = v k)
      by (intros k Hk; apply val_of_map; exact Hk).
    split; [|apply objective_ext; exact Hag].
    apply filter_In; split.
    - rewrite <- (length_map v ks). apply all_bits_complete.
      apply Forall_map, Forall_forall. intros k Hk.
      unfold feasibleb in Hv; apply andb_true_iff in Hv as [Hb _].
      rewrite forallb_forall in Hb; specialize (Hb k Hk).
      unfold binaryb in Hb; apply orb_true_iff in Hb as [Hb|Hb];
        apply Z.eqb_eq in Hb; auto.
    - rewrite (feasibleb_ext p _ v Hag); exact Hv. }
  destruct (filter _ _) as [|c cs] eqn:Ef; simpl; split.
  - intros [v Hv]. destruct (Hcomplete v Hv) as [Hin _]. destruct Hin.
  - discriminate.
  - reflexivity.
  - intros _. split.
    + pose proof (argmax_in p ks c cs) as Hin. rewrite <- Ef in Hin.
      apply filter_In in Hin as [_ Hf]; exact Hf.
    + intros v Hv. destruct (Hcomplete v Hv) as [Hin Hobj].
      rewrite <- Hobj. apply argmax_max; exact Hin.
Qed.

End LpFacts.

Import LpFacts.

(** ** Python list helpers *)

Module PyFacts.

Lemma mem_Z_In : forall x l, mem_Z x l = true <-> In x l.
Proof.
  intros x l; unfold mem_Z; rewrite existsb_exists; split.
  - intros [y [Hy E]]; apply Z.eqb_eq in E; subst; exact Hy.
  - intros H; exists x; split; [exact H | apply Z.eqb_refl].
Qed.

Lemma mem_str_In : forall x l, mem_str x l = true <-> In x l.
Proof.
  intros x l; unfold mem_str; rewrite existsb_exists; split.
  - intros [y [Hy E]]; apply String.eqb_eq in E; subst; exact Hy.
  - intros H; exists x; split; [exact H | apply String.eqb_refl].
Qed.

Lemma unique_aux_In : forall l seen x,
  In x (unique_aux seen l) <-> In x l /\ ~ In x seen.
Proof.
  induction l as [|y l IH]; intros seen x; simpl; [tauto|].
  destruct (mem_Z y seen) eqn:E.
  - apply mem_Z_In in E. rewrite IH.
    split; [tauto|]. intros [[<-|H] Hn]; [contradiction | tauto].
  - assert (~ In y seen) by (intros H; apply mem_Z_In in H; congruence).
    simpl; rewrite IH; simpl.
    destruct (Z.eq_dec y x) as [->|Hne]; [tauto|].
    split; [intros [H'|[H1 H2]]; [congruence | tauto] | intros [[H'|H1] H2]; [congruence|tauto]].
Qed.

Lemma unique_aux_NoDup : forall l seen, NoDup (unique_aux seen l).
Proof.
  induction l as [|y l IH]; intros seen; simpl; [constructor|].
  destruct (mem_Z y seen); [apply IH|].
  constructor; [|apply IH].
  rewrite unique_aux_In; simpl; tauto.
Qed.

Lemma dedup_aux_In : forall l seen x,
  In x (dedup_aux seen l) <-> In x l /\ ~ In x seen.
Proof.
  induction l as [|y l IH]; intros seen x; simpl; [tauto|].
  destruct (mem_str y seen) eqn:E.
  - apply mem_str_In in E. rewrite IH.
    split; [tauto|]. intros [[<-|H] Hn]; [contradiction | tauto].
  - assert (~ In y seen) by (intros H; apply mem_str_In in H; congruence).
    simpl; rewrite IH; simpl.
    destruct (string_dec y x) as [->|Hne]; [tauto|].
    split; [intros [H'|[H1 H2]]; [congruence | tauto] | intros [[H'|H1] H2]; [congruence|tauto]].
Qed.

Lemma dedup_aux_NoDup : forall l seen, NoDup (dedup_aux seen l).
Proof.
  induction l as [|y l IH]; intros seen; simpl; [constructor|].
  destruct (mem_str y seen); [apply IH|].
  constructor; [|apply IH].
  rewrite dedup_aux_In; simpl; tauto.
Qed.

(** First-occurrence order is one of the orders a Python set may have. *)
Lemma dedup_ok : set_list_ok dedup.
Proof.
  intros l; split; [apply dedup_aux_NoDup|].
  intros t; unfold dedup; rewrite dedup_aux_In; simpl; tauto.
Qed.

Lemma map_res_Forall2 {A B} : forall (f : A -> result B) l bs,
  map_res f l = Ok bs -> Forall2 (fun a b => f a = Ok b) l bs.
Proof.
  induction l as [|a l IH]; intros bs H; simpl in H.
  - inversion H; constructor.
  - destruct (f a) as [b|e] eqn:Ef; simpl in H; [|discriminate].
    destruct (map_res f l) as [bs'|e] eqn:Er; simpl in H; [|discriminate].
    inversion H; subst. constructor; [exact Ef | apply IH; reflexivity].
Qed.

Lemma map_res_Err {A B} : forall (f : A -> result B) l e,
  map_res f l = Err e -> exists a, In a l /\ f a = Err e.
Proof.
  induction l as [|a l IH]; intros e H; simpl in H; [discriminate|].
  destruct (f a) as [b|e'] eqn:Ef; simpl in H.
  - destruct (map_res f l) as [bs'|e'] eqn:Er; simpl in H; [discriminate|].
    inversion H; subst. destruct (IH e eq_refl) as [a' [Hin Ha']].
    exists a'; split; [right|]; assumption.
  - inversion H; subst. exists a; split; [left; reflexivity | exact Ef].
Qed.

(** A loop that raises on one element does not return a list. *)
Lemma map_res_not_Ok {A B} : forall (f : A -> result B) l a e,
  In a l -> f a = Err e -> forall bs, map_res f l <> Ok bs.
Proof.
  intros f l a e Hin Ha bs H. apply map_res_Forall2 in H.
  induction H as [|a' b l' bs' Hab _ IH]; [destruct Hin|].
  destruct Hin as [->|Hin]; [congruence | apply IH; exact Hin].
Qed.

Lemma Forall2_In_l {A B} : forall (R : A -> B -> Prop) l bs b,
  Forall2 R l bs -> In b bs -> exists a, In a l /\ R a b.
Proof.
  intros R l bs b H; induction H as [|a b' l' bs' Hab _ IH]; intros Hin; [destruct Hin|].
  destruct Hin as [->|Hin]; [exists a; split; [left; reflexivity|exact Hab]|].
  destruct (IH Hin) as [a' [Ha' HR]]; exists a'; split; [right|]; assumption.
Qed.

Lemma py_max_In : forall l mx, py_max l = Some mx -> forall x, In x l -> x <= mx.
Proof.
  intros [|y l] mx H; simpl in H; [discriminate|]; inversion H; subst; clear H.
  assert (Hgen : forall acc x, In x (acc :: l) -> x <= fold_left Z.max l acc).
  { induction l as [|z l IH]; intros acc x Hx; simpl in *.
    - destruct Hx as [->|[]]; lia.
    - destruct Hx as [->|[->|Hx]].
      + specialize (IH (Z.max x z) (Z.max x z) (or_introl eq_refl)); lia.
      + specialize (IH (Z.max acc x) (Z.max acc x) (or_introl eq_refl)); lia.
      + apply IH; right; exact Hx. }
  intros x Hx; apply Hgen; exact Hx.
Qed.

Lemma map_res_Ok_each {A B} : forall (f : A -> result B) l bs a,
  map_res f l = Ok bs -> In a l -> exists b, f a = Ok b.
Proof.
  intros f l bs a H Ha. apply map_res_Forall2 in H.
  induction H as [|a' b l' bs' Hab _ IH]; [destruct Ha|].
  destruct Ha as [->|Ha]; [exists b; exact Hab | apply IH; exact Ha].
Qed.

End PyFacts.

Import PyFacts.

(** ** The code of [optimize_survivor_pool] *)

Module CodeFacts.

Section Code.
Variable set_list : list string -> list string.
Variable df : list Row.
Variable sel : list string.

Let avail := available_teams set_list df sel.

Lemma available_In : forall t, In t avail <-> In t (teams set_list df) /\ ~ In t sel.
Proof.
  intros t; unfold avail, available_teams; rewrite filter_In.
  destruct (mem_str t sel) eqn:E; simpl.
  - apply mem_str_In in E; split; [intros [_ H]; discriminate | intros [_ H]; contradiction].
  - split; [intros [H _]; split; [exact H|] | intros [H _]; split; [exact H | reflexivity]].
    intros H'; apply mem_str_In in H'; congruence.
Qed.

Lemma in_x_iff : forall rem w t,
  in_x set_list df sel rem (w, t) = true <-> In w rem /\ In t avail.
Proof.
  intros rem w t; unfold in_x, x_keys; rewrite existsb_exists; split.
  - intros [k [Hk E]]. apply key_eqb_eq in E; subst k.
    apply in_flat_map in Hk as [w' [Hw' Hk]]. apply in_map_iff in Hk as [t' [E Ht']].
    inversion E; subst; split; assumption.
  - intros [Hw Ht]. exists (w, t); split; [|apply key_eqb_eq; reflexivity].
    apply in_flat_map; exists w; split; [exact Hw|]. apply in_map_iff; exists t; auto.
Qed.

Lemma make_metric_Ok : forall w t m, make_metric df w t = Ok m ->
  exists g, find (game_matches w t) df = Some g /\
    m = mkMetric w t
          (if String.eqb t (HomeTeam g) then AwayTeam g else HomeTeam g)
          (if String.eqb t (HomeTeam g) then HomeProbability g else AwayProbability g)
          (if String.eqb t (HomeTeam g) then AwayProbability g else HomeProbability g)
          (if String.eqb t (HomeTeam g) then HomeProbability g else AwayProbability g)
          (reason t
             (if String.eqb t (HomeTeam g) then HomeProbability g else AwayProbability g)
             (if String.eqb t (HomeTeam g) then AwayProbability g else HomeProbability g)).
Proof.
  intros w t m H; unfold make_metric in H.
  destruct (find (game_matches w t) df) as [g|] eqn:E; [|discriminate].
  inversion H; subst; exists g; split; reflexivity.
Qed.

Lemma make_metric_Err : forall w t e, make_metric df w t = Err e ->
  e = IndexError /\ find (game_matches w t) df = None.
Proof.
  intros w t e H; unfold make_metric in H.
  destruct (find (game_matches w t) df) eqn:E; [discriminate|].
  inversion H; split; reflexivity.
Qed.

Lemma make_metric_keys : forall w ts ms,
  map_res (make_metric df w) ts = Ok ms -> plan_keys ms = map (fun t => (w, t)) ts.
Proof.
  intros w ts ms H; apply map_res_Forall2 in H.
  induction H as [|t m ts ms Hm _ IH]; [reflexivity|].
  simpl; rewrite IH. apply make_metric_Ok in Hm as [g [_ ->]]. reflexivity.
Qed.

Section Collect.
Variable rem : list Z.
Variable v : valuation.

Let collect := collect_metrics set_list df sel rem v.

Lemma collect_Ok_In : forall ms m, collect = Ok ms -> In m ms ->
  In (m_week m) rem /\ In (m_selected_team m) avail /\
  v (m_week m, m_selected_team m) = 1 /\
  make_metric df (m_week m) (m_selected_team m) = Ok m.
Proof.
  intros ms m H Hm; unfold collect, collect_metrics in H.
  destruct (map_res _ rem) as [rows|e] eqn:E; simpl in H; [|discriminate].
  inversion H; subst ms; clear H.
  apply in_concat in Hm as [ms_w [Hrow Hm]].
  apply map_res_Forall2 in E.
  destruct (Forall2_In_l _ _ _ _ E Hrow) as [w [Hw Hws]].
  apply map_res_Forall2 in Hws.
  destruct (Forall2_In_l _ _ _ _ Hws Hm) as [t [Ht Hmt]].
  apply filter_In in Ht as [Ht Hv]. apply Z.eqb_eq in Hv.
  pose proof Hmt as Hmt'. apply make_metric_Ok in Hmt' as [g [_ ->]]; simpl.
  repeat split; assumption.
Qed.

Lemma collect_plan_keys : forall ms, collect = Ok ms ->
  plan_keys ms =
  flat_map (fun w => map (fun t => (w, t)) (filter (fun t => Z.eqb (v (w, t)) 1) avail)) rem.
Proof.
  intros ms H; unfold collect, collect_metrics in H.
  destruct (map_res _ rem) as [rows|e] eqn:E; simpl in H; [|discriminate].
  inversion H; subst ms; clear H.
  apply map_res_Forall2 in E.
  induction E as [|w ms_w ws rows Hw _ IH]; [reflexivity|].
  simpl. unfold plan_keys in *. rewrite map_app, IH. f_equal.
  apply make_metric_keys; exact Hw.
Qed.

Lemma collect_Err : forall e, collect = Err e -> e = IndexError.
Proof.
  intros e H; unfold collect, collect_metrics in H.
  destruct (map_res _ rem) as [rows|e'] eqn:E; simpl in H; inversion H; subst.
  apply map_res_Err in E as [w [_ Hw]].
  apply map_res_Err in Hw as [t [_ Ht]].
  apply make_metric_Err in Ht as [-> _]; reflexivity.
Qed.

End Collect.
End Code.

Lemma horizon_spec : forall df cw dur rem, horizon df cw dur = Some rem ->
  exists mx, py_max (weeks df) = Some mx /\ NoDup rem /\
  forall w, In w rem <-> In w (map Week df) /\ cw <= w <= Z.min (cw + dur - 1) mx.
Proof.
  intros df cw dur rem H; unfold horizon in H.
  destruct (py_max (weeks df)) as [mx|] eqn:E; [|discriminate].
  inversion H; subst rem; clear H. exists mx; split; [reflexivity|split].
  - apply NoDup_filter, unique_aux_NoDup.
  - intros w; unfold remaining_weeks_upto; rewrite filter_In, andb_true_iff, !Z.leb_le.
    unfold weeks, unique; rewrite unique_aux_In; simpl. tauto.
Qed.

End CodeFacts.

Import CodeFacts.

(** ** [:.4f] formatting *)

Module FormatFacts.

Lemma digit_is_digit : forall d, 0 <= d < 10 -> is_digit (digit d) = true.
Proof.
  intros d Hd.
  assert (d = 0 \/ d = 1 \/ d = 2 \/ d = 3 \/ d = 4 \/ d = 5 \/ d = 6 \/ d = 7 \/ d = 8 \/ d = 9)
    as Hc by lia.
  repeat destruct Hc as [->|Hc]; try reflexivity; subst; reflexivity.
Qed.

Lemma digit_mod_is_digit : forall n, is_digit (digit (n mod 10)) = true.
Proof. intros n; apply digit_is_digit, Z.mod_pos_bound; lia. Qed.

Lemma dec_aux_digits : forall fuel n acc,
  all_digits acc = true -> all_digits (dec_aux fuel n acc) = true.
Proof.
  induction fuel as [|f IH]; intros n acc Hacc; simpl; [exact Hacc|].
  assert (Hacc' : all_digits (String (digit (n mod 10)) acc) = true)
    by (simpl; rewrite digit_mod_is_digit, Hacc; reflexivity).
  destruct (Z.ltb n 10); [exact Hacc' | apply IH; exact Hacc'].
Qed.

Lemma dec_aux_nonempty : forall fuel n acc, acc <> "" -> dec_aux fuel n acc <> "".
Proof.
  induction fuel as [|f IH]; intros n acc Hacc; simpl; [exact Hacc|].
  destruct (Z.ltb n 10); [discriminate | apply IH; discriminate].
Qed.

Lemma dec_string_ok : forall n, dec_string n <> "" /\ all_digits (dec_string n) = true.
Proof.
  intros n; unfold dec_string; simpl; split.
  - destruct (Z.ltb n 10); [discriminate | apply dec_aux_nonempty; discriminate].
  - destruct (Z.ltb n 10); [simpl; rewrite digit_mod_is_digit; reflexivity|].
    apply dec_aux_digits; simpl; rewrite digit_mod_is_digit; reflexivity.
Qed.

Lemma pad4_ok : forall m, String.length (pad4 m) = 4%nat /\ all_digits (pad4 m) = true.
Proof.
  intros m; unfold pad4; split; [reflexivity|]; simpl.
  rewrite !digit_mod_is_digit; reflexivity.
Qed.

(** Every rendering [fmt4] produces has exactly four decimals. *)
Lemma fmt4_fixed_point4 : forall x, fixed_point4 (fmt4 x).
Proof.
  intros x; unfold fmt4, fixed_point4.
  set (n := round_half_even _ _).
  exists (if Z.ltb (Qnum x) 0 then "-" else ""), (dec_string (n / 10000)), (pad4 (n mod 10000)).
  destruct (dec_string_ok (n / 10000)) as [Hne Hd]; destruct (pad4_ok (n mod 10000)) as [Hl Hp].
  repeat split; try assumption.
  destruct (Z.ltb (Qnum x) 0); [right|left]; reflexivity.
Qed.

End FormatFacts.

Import FormatFacts.

(** ** Sums of 0/1 values *)

Module SumFacts.

Lemma lin_eval_unit {A} : forall (k : A -> key) l v,
  lin_eval (map (fun a => (1, k a)) l) v = sumZ (map (fun a => v (k a)) l).
Proof.
  intros k l v; induction l as [|a l IH]; [reflexivity|].
  change (1 * v (k a) + lin_eval (map (fun a => (1, k a)) l) v =
          v (k a) + sumZ (map (fun a => v (k a)) l)).
  rewrite IH; lia.
Qed.

Lemma filter_all {A} : forall (f : A -> bool) l,
  (forall x, In x l -> f x = true) -> filter f l = l.
Proof.
  intros f l H; induction l as [|a l IH]; simpl; [reflexivity|].
  rewrite (H a (or_introl eq_refl)), IH; [reflexivity|].
  intros x Hx; apply H; right; exact Hx.
Qed.

Lemma sum_ge_elem {A} : forall (f : A -> Z) l y,
  (forall x, In x l -> 0 <= f x) -> In y l -> f y <= sumZ (map f l).
Proof.
  intros f l y; induction l as [|a l IH]; intros Hpos Hy; [destruct Hy|].
  unfold sumZ in *; simpl.
  assert (Hs : 0 <= fold_right Z.add 0 (map f l)).
  { clear IH Hy. induction l as [|b l IHl]; simpl; [lia|].
    pose proof (Hpos b (or_intror (or_introl eq_refl))).
    assert (0 <= fold_right Z.add 0 (map f l))
      by (apply IHl; intros x [->|Hx]; apply Hpos; [left|right; right]; auto).
    lia. }
  destruct Hy as [<-|Hy].
  - lia.
  - pose proof (Hpos a (or_introl eq_refl)).
    assert (f y <= fold_right Z.add 0 (map f l))
      by (apply IH; [intros x Hx; apply Hpos; right; exact Hx | exact Hy]).
    lia.
Qed.

Lemma sum_nonneg {A} : forall (f : A -> Z) l,
  (forall x, In x l -> 0 <= f x) -> 0 <= sumZ (map f l).
Proof.
  intros f l Hpos; induction l as [|a l IH]; unfold sumZ in *; simpl; [lia|].
  pose proof (Hpos a (or_introl eq_refl)).
  assert (0 <= fold_right Z.add 0 (map f l)) by (apply IH; intros x Hx; apply Hpos; right; exact Hx).
  lia.
Qed.

(** Two distinct selected elements make a sum of at least two. *)
Lemma sum_two {A} : forall (f : A -> Z) l x y,
  (forall z, In z l -> 0 <= f z) -> In x l -> In y l -> x <> y ->
  f x = 1 -> f y = 1 -> 2 <= sumZ (map f l).
Proof.
  intros f l x y Hpos; induction l as [|a l IH]; intros Hx Hy Hne Hfx Hfy; [destruct Hx|].
  assert (Hpos' : forall z, In z l -> 0 <= f z) by (intros z Hz; apply Hpos; right; exact Hz).
  unfold sumZ; simpl; fold (sumZ (map f l)).
  destruct Hx as [<-|Hx]; destruct Hy as [<-|Hy].
  - congruence.
  - pose proof (sum_ge_elem f l y Hpos' Hy); lia.
  - pose proof (sum_ge_elem f l x Hpos' Hx); lia.
  - pose proof (Hpos a (or_introl eq_refl)). pose proof (IH Hpos' Hx Hy Hne Hfx Hfy). lia.
Qed.

Lemma sum_one_exists {A} : forall (f : A -> Z) l,
  (forall z, In z l -> f z = 0 \/ f z = 1) -> sumZ (map f l) = 1 ->
  exists x, In x l /\ f x = 1.
Proof.
  intros f l H01; induction l as [|a l IH]; unfold sumZ; simpl; intros Hs; [discriminate|].
  destruct (H01 a (or_introl eq_refl)) as [Ha|Ha].
  - destruct IH as [x [Hx Hfx]].
    + intros z Hz; apply H01; right; exact Hz.
    + unfold sumZ; lia.
    + exists x; split; [right|]; assumption.
  - exists a; split; [left; reflexivity | exact Ha].
Qed.

(** In a list without duplicates, a 0/1 function equal to 1 at one
    element at most sums to at most one, and to one when that element
    exists. *)
Lemma sum_indicator {A} : forall (f : A -> Z) l,
  NoDup l -> (forall z, In z l -> f z = 0 \/ f z = 1) ->
  (forall x y, In x l -> In y l -> f x = 1 -> f y = 1 -> x = y) ->
  sumZ (map f l) <= 1 /\ ((exists x, In x l /\ f x = 1) -> sumZ (map f l) = 1).
Proof.
  intros f l Hnd; induction Hnd as [|a l Ha Hnd IH]; intros H01 Huniq.
  - split; [unfold sumZ; simpl; lia|]. intros [x [[] _]].
  - assert (H01' : forall z, In z l -> f z = 0 \/ f z = 1)
      by (intros z Hz; apply H01; right; exact Hz).
    assert (Huniq' : forall x y, In x l -> In y l -> f x = 1 -> f y = 1 -> x = y)
      by (intros x y Hx Hy; apply Huniq; right; assumption).
    destruct (IH H01' Huniq') as [Hle Heq].
    unfold sumZ in *; simpl.
    destruct (H01 a (or_introl eq_refl)) as [Hfa|Hfa].
    + split; [lia|]. intros [x [[<-|Hx] Hfx]]; [congruence|].
      rewrite Hfa, Heq by (exists x; split; assumption). lia.
    + assert (Hzero : forall z, In z l -> f z = 0).
      { intros z Hz. destruct (H01' z Hz) as [H0|H1]; [exact H0|].
        exfalso. apply Ha. rewrite (Huniq a z (or_introl eq_refl) (or_intror Hz) Hfa H1).
        exact Hz. }
      assert (fold_right Z.add 0 (map f l) = 0).
      { clear -Hzero. induction l as [|b l IHl]; simpl; [reflexivity|].
        rewrite (Hzero b (or_introl eq_refl)), IHl; [reflexivity|].
        intros z Hz; apply Hzero; right; exact Hz. }
      split; [lia | intros _; lia].
Qed.

Lemma NoDup_map_inj {A B} : forall (f : A -> B) l x y,
  NoDup (map f l) -> In x l -> In y l -> f x = f y -> x = y.
Proof.
  intros f l x y; induction l as [|a l IH]; intros Hnd Hx Hy E; [destruct Hx|].
  simpl in Hnd; inversion Hnd as [|? ? Hna Hnd']; subst.
  destruct Hx as [<-|Hx]; destruct Hy as [<-|Hy].
  - reflexivity.
  - exfalso; apply Hna; rewrite E; apply in_map; exact Hy.
  - exfalso; apply Hna; rewrite <- E; apply in_map; exact Hx.
  - apply IH; assumption.
Qed.

Lemma NoDup_flat_map {A B} : forall (f : A -> list B) l,
  NoDup l -> (forall a, In a l -> NoDup (f a)) ->
  (forall a b x, In a l -> In b l -> a <> b -> In x (f a) -> In x (f b) -> False) ->
  NoDup (flat_map f l).
Proof.
  intros f l Hnd; induction Hnd as [|a l Ha Hnd IH]; intros Hblk Hdisj; simpl; [constructor|].
  apply NoDup_app.
  - apply Hblk; left; reflexivity.
  - apply IH; [intros b Hb; apply Hblk; right; exact Hb|].
    intros b c x Hb Hc; apply Hdisj; right; assumption.
  - intros x Hx Hx'. apply in_flat_map in Hx' as [b [Hb Hxb]].
    apply (Hdisj a b x (or_introl eq_refl) (or_intror Hb)); try assumption.
    intros ->; contradiction.
Qed.

Lemma NoDup_firstn {A} : forall (l : list A) n, NoDup l -> NoDup (firstn n l).
Proof.
  intros l n H. rewrite <- (firstn_skipn n l) in H. eapply NoDup_app_remove_r; exact H.
Qed.

Lemma map_fst_combine {A B} : forall (l1 : list A) (l2 : list B),
  (List.length l1 <= List.length l2)%nat -> map fst (combine l1 l2) = l1.
Proof.
  induction l1 as [|a l1 IH]; intros [|b l2] H; simpl in *; try reflexivity; [lia|].
  f_equal; apply IH; lia.
Qed.

Lemma map_snd_combine {A B} : forall (l1 : list A) (l2 : list B),
  map snd (combine l1 l2) = firstn (List.length l1) l2.
Proof.
  induction l1 as [|a l1 IH]; intros [|b l2]; simpl; try reflexivity.
  f_equal; apply IH.
Qed.

End SumFacts.

Import SumFacts.

(** ** The program the code builds *)

Module ProgramFacts.

Section Program.
Variable set_list : list string -> list string.
Variable df : list Row.
Variable sel : list string.
Variable rem : list Z.

Let avail := available_teams set_list df sel.
Let prob := problem set_list df sel rem.

Lemma team_filter_all : forall t, In t avail ->
  filter (fun w => in_x set_list df sel rem (w, t)) rem = rem.
Proof.
  intros t Ht; apply filter_all; intros w Hw; apply in_x_iff; split; assumption.
Qed.

Lemma week_filter_all : forall w, In w rem ->
  filter (fun t => in_x set_list df sel rem (w, t)) avail = avail.
Proof.
  intros w Hw; apply filter_all; intros t Ht; apply in_x_iff; split; assumption.
Qed.

(** The variables of the program are the pairs of a horizon week and an
    available team. *)
Lemma lp_vars_problem : forall k, In k (lp_vars prob) <-> In (fst k) rem /\ In (snd k) avail.
Proof.
  intros k; unfold lp_vars, prob; rewrite nodup_In; split.
  - intros H; apply in_app_or in H as [H|H].
    + apply in_map_iff in H as [[c k'] [Ek Hin]]; simpl in Ek; subst k'.
      simpl in Hin; unfold objective_terms in Hin.
      apply in_flat_map in Hin as [r [_ Hin]].
      destruct (_ && _) eqn:Ec; [|destruct Hin].
      rewrite !andb_true_iff in Ec. destruct Ec as [[_ [_ Hxh]] [_ Hxa]].
      destruct Hin as [E|[E|[]]]; inversion E; subst.
      * apply in_x_iff in Hxh; exact Hxh.
      * apply in_x_iff in Hxa; exact Hxa.
    + apply in_flat_map in H as [c [Hc Hk]]; simpl in Hc.
      apply in_app_or in Hc as [Hc|Hc].
      * unfold team_constraints in Hc; apply in_map_iff in Hc as [t [<- _]].
        simpl in Hk; rewrite map_map in Hk; apply in_map_iff in Hk as [w [<- Hw]].
        apply filter_In in Hw as [_ Hx]; apply in_x_iff in Hx; exact Hx.
      * unfold week_constraints in Hc; apply in_map_iff in Hc as [w [<- _]].
        simpl in Hk; rewrite map_map in Hk; apply in_map_iff in Hk as [t [<- Ht]].
        apply filter_In in Ht as [_ Hx]; apply in_x_iff in Hx; exact Hx.
  - destruct k as [w t]; simpl; intros [Hw Ht].
    apply in_or_app; right. apply in_flat_map.
    exists (mkConstraint (map (fun w => (1, (w, t)))
              (filter (fun w => in_x set_list df sel rem (w, t)) rem)) LE 1).
    split.
    + simpl; apply in_or_app; left. unfold team_constraints.
      apply in_map_iff; exists t; split; [reflexivity | exact Ht].
    + simpl; rewrite map_map; apply in_map_iff; exists w; split; [reflexivity|].
      apply filter_In; split; [exact Hw | apply in_x_iff; split; assumption].
Qed.

(** [feasibleb] on the program is exactly [feasible_point]. *)
Lemma feasibleb_iff : forall v, feasibleb prob v = true <-> feasible_point set_list df sel rem v.
Proof.
  intros v; unfold feasibleb, feasible_point; fold avail.
  rewrite andb_true_iff, !forallb_forall.
  assert (Hteam : forall t, In t avail ->
            satb v (mkConstraint (map (fun w => (1, (w, t)))
                      (filter (fun w => in_x set_list df sel rem (w, t)) rem)) LE 1) = true <->
            sumZ (map (fun w => v (w, t)) rem) <= 1).
  { intros t Ht; unfold satb; simpl. rewrite (lin_eval_unit (fun w => (w, t))).
    rewrite team_filter_all by exact Ht. apply Z.leb_le. }
  assert (Hweek : forall w, In w rem ->
            satb v (mkConstraint (map (fun t => (1, (w, t)))
                      (filter (fun t => in_x set_list df sel rem (w, t)) avail)) EQ 1) = true <->
            sumZ (map (fun t => v (w, t)) avail) = 1).
  { intros w Hw; unfold satb; simpl. rewrite (lin_eval_unit (fun t => (w, t))).
    fold avail. rewrite week_filter_all by exact Hw. apply Z.eqb_eq. }
  unfold prob, problem; simpl. split.
  - intros [Hb Hc]. split; [|split].
    + intros w t Hw Ht.
      assert (Hk : In (w, t) (lp_vars prob)) by (apply lp_vars_problem; split; assumption).
      specialize (Hb _ Hk); unfold binaryb in Hb.
      apply orb_true_iff in Hb as [Hb|Hb]; apply Z.eqb_eq in Hb; auto.
    + intros t Ht; apply Hteam; [exact Ht|]. apply Hc, in_or_app; left.
      unfold team_constraints; apply in_map_iff; exists t; split; [reflexivity | exact Ht].
    + intros w Hw; apply Hweek; [exact Hw|]. apply Hc, in_or_app; right.
      unfold week_constraints; apply in_map_iff; exists w; split; [reflexivity | exact Hw].
  - intros [Hb [Ht Hw]]. split.
    + intros [w t] Hk. apply lp_vars_problem in Hk as [Hk1 Hk2]; simpl in *.
      unfold binaryb. destruct (Hb w t Hk1 Hk2) as [-> | ->]; reflexivity.
    + intros c Hc; apply in_app_or in Hc as [Hc|Hc].
      * unfold team_constraints in Hc; apply in_map_iff in Hc as [t [<- Hin]].
        apply Hteam; [exact Hin | apply Ht; exact Hin].
      * unfold week_constraints in Hc; apply in_map_iff in Hc as [w [<- Hin]].
        apply Hweek; [exact Hin | apply Hw; exact Hin].
Qed.

Lemma indicator_1_iff : forall asg k, indicator asg k = 1 <-> In k asg.
Proof.
  intros asg k; unfold indicator; destruct (existsb (key_eqb k) asg) eqn:E.
  - apply existsb_exists in E as [k' [Hk' E]]; apply key_eqb_eq in E; subst.
    split; [intros _; exact Hk' | reflexivity].
  - split; [discriminate|]. intros H. exfalso.
    assert (existsb (key_eqb k) asg = true)
      by (apply existsb_exists; exists k; split; [exact H | apply key_eqb_eq; reflexivity]).
    congruence.
Qed.

Lemma indicator_01 : forall asg k, indicator asg k = 0 \/ indicator asg k = 1.
Proof. intros asg k; unfold indicator; destruct (existsb _ _); auto. Qed.

(** An assignment of one available team per horizon week, no team used
    twice, is a feasible point of the program. *)
Lemma feasible_of_assignment : forall asg,
  NoDup rem -> NoDup avail -> assignment_ok rem avail asg ->
  feasible_point set_list df sel rem (indicator asg).
Proof.
  intros asg Hnr Hna [Hin [Hfst [Hsnd Hcov]]]. fold avail.
  rewrite Forall_forall in Hin.
  split; [|split].
  - intros w t _ _; apply indicator_01.
  - intros t Ht. apply (sum_indicator (fun w => indicator asg (w, t)) rem Hnr).
    + intros w _; apply indicator_01.
    + intros w w' _ _ H1 H2. apply indicator_1_iff in H1, H2.
      pose proof (NoDup_map_inj snd asg (w, t) (w', t) Hsnd H1 H2 eq_refl) as E.
      inversion E; reflexivity.
  - intros w Hw. apply (sum_indicator (fun t => indicator asg (w, t)) avail Hna).
    + intros t _; apply indicator_01.
    + intros t t' _ _ H1 H2. apply indicator_1_iff in H1, H2.
      pose proof (NoDup_map_inj fst asg (w, t) (w, t') Hfst H1 H2 eq_refl) as E.
      inversion E; reflexivity.
    + apply Hcov in Hw. apply in_map_iff in Hw as [[w' t] [E Hk]]; simpl in E; subst w'.
      exists t; split; [apply (Hin _ Hk) | apply indicator_1_iff; exact Hk].
Qed.

(** With at least as many available teams as horizon weeks, pairing
    them in order is such an assignment. *)
Lemma assignment_of_count :
  NoDup rem -> NoDup avail -> (List.length rem <= List.length avail)%nat ->
  assignment_ok rem avail (combine rem avail).
Proof.
  intros Hnr Hna Hlen. unfold assignment_ok.
  rewrite map_fst_combine by exact Hlen. rewrite map_snd_combine.
  split; [|split; [exact Hnr | split; [apply NoDup_firstn; exact Hna | auto]]].
  apply Forall_forall; intros [w t] Hk; simpl; split;
    [eapply in_combine_l | eapply in_combine_r]; exact Hk.
Qed.

Section Solver.
Variable solve : Problem -> Status * valuation.
Hypothesis Hsolve : solver_ok solve.

(** Under the count condition the solver finds an optimum: a feasible
    point at least as good as every assignment. *)
Lemma solver_optimum :
  NoDup rem -> NoDup avail -> (List.length rem <= List.length avail)%nat ->
  fst (solve prob) = Optimal /\
  feasible_point set_list df sel rem (snd (solve prob)) /\
  forall asg, assignment_ok rem avail asg ->
    Qle (objective prob (indicator asg)) (objective prob (snd (solve prob))).
Proof.
  intros Hnr Hna Hlen.
  destruct (Hsolve prob) as [Hex Hopt].
  assert (Hst : fst (solve prob) = Optimal).
  { apply Hex. exists (indicator (combine rem avail)).
    apply feasibleb_iff, feasible_of_assignment; try assumption.
    apply assignment_of_count; assumption. }
  destruct (Hopt Hst) as [Hf Hmax].
  split; [exact Hst|]. split; [apply feasibleb_iff; exact Hf|].
  intros asg Hasg. apply Hmax, feasibleb_iff, feasible_of_assignment; assumption.
Qed.

End Solver.
End Program.

Lemma available_NoDup : forall set_list df sel,
  set_list_ok set_list -> NoDup (available_teams set_list df sel).
Proof.
  intros set_list df sel Hs; unfold available_teams, teams.
  apply NoDup_filter, Hs.
Qed.

End ProgramFacts.

Import ProgramFacts.

(** ** The plan read back from a feasible point *)

Module PlanFacts.

Lemma filter_none {A} : forall (f : A -> bool) l,
  (forall y, In y l -> f y = false) -> filter f l = [].
Proof.
  intros f l H; induction l as [|a l IH]; simpl; [reflexivity|].
  rewrite (H a (or_introl eq_refl)); apply IH; intros y Hy; apply H; right; exact Hy.
Qed.

Lemma filter_single {A} : forall (f : A -> bool) l x,
  NoDup l -> In x l -> (forall y, In y l -> f y = true -> y = x) -> f x = true ->
  filter f l = [x].
Proof.
  intros f l x Hnd; induction Hnd as [|a l Ha Hnd IH]; intros Hx Honly Hfx; [destruct Hx|].
  simpl. destruct Hx as [<-|Hx].
  - rewrite Hfx. f_equal. apply filter_none. intros y Hy.
    destruct (f y) eqn:Ey; [|reflexivity].
    exfalso. apply Ha. rewrite <- (Honly y (or_intror Hy) Ey). exact Hy.
  - destruct (f a) eqn:Ea.
    + exfalso. apply Ha. rewrite (Honly a (or_introl eq_refl) Ea). exact Hx.
    + apply IH; [exact Hx | | exact Hfx]. intros y Hy; apply Honly; right; exact Hy.
Qed.

Lemma map_snd_pairs {A B} : forall (g : A -> list B) l,
  map snd (flat_map (fun a => map (fun b => (a, b)) (g a)) l) = flat_map g l.
Proof.
  intros g l; induction l as [|a l IH]; simpl; [reflexivity|].
  rewrite map_app, map_map, IH; simpl; rewrite map_id; reflexivity.
Qed.

Lemma map_fst_pairs_single {A B} : forall (g : A -> list B) l,
  (forall a, In a l -> exists b, g a = [b]) ->
  map fst (flat_map (fun a => map (fun b => (a, b)) (g a)) l) = l.
Proof.
  intros g l H; induction l as [|a l IH]; simpl; [reflexivity|].
  destruct (H a (or_introl eq_refl)) as [b Eb]; rewrite Eb; simpl.
  f_equal; apply IH; intros a' Ha'; apply H; right; exact Ha'.
Qed.

Section Plan.
Variable set_list : list string -> list string.
Variable df : list Row.
Variable sel : list string.
Variable rem : list Z.
Variable v : valuation.

Let avail := available_teams set_list df sel.
Let block (w : Z) := filter (fun t => Z.eqb (v (w, t)) 1) avail.
Let pairs := flat_map (fun w => map (fun t => (w, t)) (block w)) rem.

Hypothesis Hnr : NoDup rem.
Hypothesis Hna : NoDup avail.
Hypothesis Hfeas : feasible_point set_list df sel rem v.

(** Each horizon week selects exactly one team. *)
Lemma block_single : forall w, In w rem -> exists t, block w = [t].
Proof.
  intros w Hw. destruct Hfeas as [Hb [_ Hweek]]; fold avail in Hb, Hweek.
  destruct (sum_one_exists (fun t => v (w, t)) avail) as [t [Ht Hvt]].
  - intros t Ht; apply Hb; assumption.
  - apply Hweek; exact Hw.
  - exists t. apply filter_single; [exact Hna | exact Ht | | apply Z.eqb_eq; exact Hvt].
    intros t' Ht' E. apply Z.eqb_eq in E.
    destruct (string_dec t' t) as [->|Hne]; [reflexivity|]. exfalso.
    pose proof (sum_two (fun t => v (w, t)) avail t' t) as H2.
    assert (2 <= sumZ (map (fun t => v (w, t)) avail)).
    { apply H2; try assumption. intros z Hz; destruct (Hb w z Hw Hz) as [-> | ->]; lia. }
    rewrite (Hweek w Hw) in *; lia.
Qed.

(** No team is selected in two horizon weeks. *)
Lemma plan_teams_NoDup : NoDup (map snd pairs).
Proof.
  unfold pairs; rewrite map_snd_pairs.
  destruct Hfeas as [Hb [Hteam _]]; fold avail in Hb, Hteam.
  apply NoDup_flat_map; [exact Hnr | intros w _; apply NoDup_filter; exact Hna|].
  intros w1 w2 t Hw1 Hw2 Hne Ht1 Ht2.
  apply filter_In in Ht1 as [Ht E1], Ht2 as [_ E2]. apply Z.eqb_eq in E1, E2.
  assert (2 <= sumZ (map (fun w => v (w, t)) rem)).
  { apply (sum_two (fun w => v (w, t)) rem w1 w2); try assumption.
    intros z Hz; destruct (Hb z t Hz Ht) as [-> | ->]; lia. }
  pose proof (Hteam t Ht); lia.
Qed.

Lemma plan_is_assignment : assignment_ok rem avail pairs.
Proof.
  split.
  - apply Forall_forall; intros [w t] Hk; unfold pairs in Hk.
    apply in_flat_map in Hk as [w' [Hw' Hk]]. apply in_map_iff in Hk as [t' [E Ht']].
    inversion E; subst. apply filter_In in Ht' as [Ht' _]. split; assumption.
  - assert (Hfst : map fst pairs = rem) by (apply map_fst_pairs_single, block_single).
    split; [rewrite Hfst; exact Hnr | split; [apply plan_teams_NoDup|]].
    intros w Hw; rewrite Hfst; exact Hw.
Qed.

(** The selected pairs, as a 0/1 point, coincide with [v] on the
    variables of the program. *)
Lemma indicator_pairs : forall w t, In w rem -> In t avail ->
  indicator pairs (w, t) = v (w, t).
Proof.
  intros w t Hw Ht. destruct Hfeas as [Hb _].
  destruct (Hb w t Hw Ht) as [E|E].
  - destruct (indicator_01 pairs (w, t)) as [E'|E']; [congruence|].
    apply indicator_1_iff in E'. unfold pairs in E'.
    apply in_flat_map in E' as [w' [_ Hk]]. apply in_map_iff in Hk as [t' [Ek Ht']].
    inversion Ek; subst. apply filter_In in Ht' as [_ E']. apply Z.eqb_eq in E'. congruence.
  - rewrite E. apply indicator_1_iff. unfold pairs. apply in_flat_map.
    exists w; split; [exact Hw|]. apply in_map_iff; exists t; split; [reflexivity|].
    apply filter_In; split; [exact Ht | apply Z.eqb_eq; exact E].
Qed.

End Plan.
End PlanFacts.

Import PlanFacts.

(** ** The excluded-opponent table under any exact solver *)

Module ExampleFacts.

(** On [table_excluded_opponent] with B excluded, every exact solver
    and every iteration order of [set] give the same plan: C in week 1.
    The event A vs B adds no term to the objective, so A scores 0. *)
Lemma excluded_opponent_any_solver :
  forall set_list solve, set_list_ok set_list -> solver_ok solve ->
  optimize_survivor_pool set_list solve table_excluded_opponent 1 ["B"] 1 =
    Ok [mkMetric 1 "C" "D" (6 # 10) (4 # 10) (6 # 10) (reason "C" (6 # 10) (4 # 10))].
Proof.
  intros sl solve Hs Hsolve.
  assert (Eh : horizon table_excluded_opponent 1 1 = Some [1]) by (vm_compute; reflexivity).
  unfold optimize_survivor_pool; rewrite Eh.
  pose proof (available_NoDup sl table_excluded_opponent ["B"] Hs) as Hna.
  assert (Hav : forall t, In t (available_teams sl table_excluded_opponent ["B"]) <->
                          t = "A" \/ t = "C" \/ t = "D").
  { intros t. rewrite available_In. unfold teams. rewrite (proj2 (Hs _)). simpl. split.
    - intros [H Hn]. destruct H as [<-|[<-|[<-|[<-|[]]]]]; auto.
      exfalso; apply Hn; left; reflexivity.
    - intros H; split.
      + destruct H as [-> | [-> | ->]]; auto 6.
      + intros [E|[]]; destruct H as [-> | [-> | ->]]; discriminate. }
  assert (Hlen : (List.length [1] <= List.length (available_teams sl table_excluded_opponent ["B"]))%nat).
  { pose proof (proj2 (Hav "A") (or_introl eq_refl)) as HA.
    destruct (available_teams sl table_excluded_opponent ["B"]); [destruct HA | simpl; lia]. }
  assert (Hnr : NoDup [1]) by (constructor; [intros []|constructor]).
  destruct (solver_optimum sl table_excluded_opponent ["B"] [1] solve Hsolve Hnr Hna Hlen)
    as [_ [[Hb [_ Hweek]] Hopt]].
  assert (Hmem : forall t, mem_str t (available_teams sl table_excluded_opponent ["B"]) = true <->
                           t = "A" \/ t = "C" \/ t = "D")
    by (intros t; rewrite mem_str_In; apply Hav).
  assert (Hx : forall t, in_x sl table_excluded_opponent ["B"] [1] (1, t) = true <->
                         t = "A" \/ t = "C" \/ t = "D").
  { intros t; rewrite in_x_iff, Hav; simpl; intuition. }
  assert (Eobj : lp_obj (problem sl table_excluded_opponent ["B"] [1]) =
                 [(6 # 10, (1, "C")); (4 # 10, (1, "D"))]).
  { simpl lp_obj. unfold objective_terms.
    set (avail := available_teams sl table_excluded_opponent ["B"]) in *.
    set (ix := in_x sl table_excluded_opponent ["B"] [1]) in *.
    assert (mB : mem_str "B" avail = false).
    { destruct (mem_str "B" avail) eqn:E; [|reflexivity].
      apply Hmem in E; destruct E as [E|[E|E]]; discriminate. }
    unfold table_excluded_opponent at 1; simpl.
    rewrite (proj2 (Hmem "A") (or_introl eq_refl)).
    rewrite (proj2 (Hmem "C") (or_intror (or_introl eq_refl))).
    rewrite (proj2 (Hmem "D") (or_intror (or_intror eq_refl))).
    rewrite (proj2 (Hx "A") (or_introl eq_refl)).
    rewrite (proj2 (Hx "C") (or_intror (or_introl eq_refl))).
    rewrite (proj2 (Hx "D") (or_intror (or_intror eq_refl))).
    rewrite mB. reflexivity. }
  set (v := snd (solve (problem sl table_excluded_opponent ["B"] [1]))) in *.
  assert (HvC : v (1, "C") = 1).
  { assert (Hc : assignment_ok [1] (available_teams sl table_excluded_opponent ["B"]) [(1, "C")]).
    { split; [|split; [|split]].
      - constructor; [split; [left; reflexivity | apply Hav; auto] | constructor].
      - constructor; [intros []|constructor].
      - constructor; [intros []|constructor].
      - intros w Hw; exact Hw. }
    specialize (Hopt _ Hc). unfold objective in Hopt. rewrite Eobj in Hopt.
    destruct (Hb 1 "C" (or_introl eq_refl) (proj2 (Hav "C") (or_intror (or_introl eq_refl))))
      as [E|E]; [|exact E].
    destruct (Hb 1 "D" (or_introl eq_refl) (proj2 (Hav "D") (or_intror (or_intror eq_refl))))
      as [E'|E']; simpl in Hopt; rewrite E, E' in Hopt; vm_compute in Hopt;
      exfalso; apply Hopt; reflexivity. }
  assert (Hfilter : filter (fun t => Z.eqb (v (1, t)) 1)
                      (available_teams sl table_excluded_opponent ["B"]) = ["C"]).
  { apply filter_single.
    - exact Hna.
    - apply Hav; auto.
    - intros y Hy Ey. apply Z.eqb_eq in Ey.
      destruct (string_dec y "C") as [->|Hne]; [reflexivity|exfalso].
      pose proof (sum_two (fun t => v (1, t))
                    (available_teams sl table_excluded_opponent ["B"]) y "C") as H2.
      specialize (Hweek 1 (or_introl eq_refl)).
      enough (2 <= 1) by lia. rewrite <- Hweek at 1. apply H2; auto.
      + intros z Hz; destruct (Hb 1 z (or_introl eq_refl) Hz) as [E|E]; lia.
      + apply Hav; auto.
    - apply Z.eqb_eq; exact HvC. }
  unfold collect_metrics; simpl map_res.
  rewrite Hfilter. vm_compute. reflexivity.
Qed.

End ExampleFacts.

Import ExampleFacts.

(** ** The read-back loop, the solver stand-ins and the float frame *)

Module ReadBackFacts.

Lemma map_res_ext_in {A B} : forall (f g : A -> result B) l,
  (forall a, In a l -> f a = g a) -> map_res f l = map_res g l.
Proof.
  intros f g l; induction l as [|a l IH]; intros H; [reflexivity|].
  cbn [map_res]. rewrite (H a (or_introl eq_refl)).
  rewrite IH by (intros a' Ha'; apply H; right; exact Ha'). reflexivity.
Qed.

(** The read-back only looks at the variables of the program. *)
Lemma collect_metrics_ext : forall set_list df sel rem v v',
  (forall w t, In w rem -> In t (available_teams set_list df sel) -> v (w, t) = v' (w, t)) ->
  collect_metrics set_list df sel rem v = collect_metrics set_list df sel rem v'.
Proof.
  intros set_list df sel rem v v' H; unfold collect_metrics.
  rewrite (map_res_ext_in _
             (fun w => map_res (make_metric df w)
                         (filter (fun t => Z.eqb (v' (w, t)) 1) (available_teams set_list df sel)))
             rem); [reflexivity|].
  intros w Hw. f_equal. apply filter_ext_in. intros t Ht. rewrite H by assumption. reflexivity.
Qed.

Lemma assignment_single : forall w avail asg,
  assignment_ok [w] avail asg -> exists t, In t avail /\ asg = [(w, t)].
Proof.
  intros w avail asg [Hf [Hnd [_ Hall]]]. rewrite Forall_forall in Hf.
  destruct asg as [|[w1 t1] [|[w2 t2] rest]].
  - destruct (Hall w (or_introl eq_refl)).
  - destruct (Hf (w1, t1) (or_introl eq_refl)) as [Hw Ht]; cbn [fst snd] in Hw, Ht.
    destruct Hw as [<-|[]]. exists t1; split; [exact Ht | reflexivity].
  - destruct (Hf (w1, t1) (or_introl eq_refl)) as [Hw1 _]; cbn [fst] in Hw1.
    destruct (Hf (w2, t2) (or_intror (or_introl eq_refl))) as [Hw2 _]; cbn [fst] in Hw2.
    destruct Hw1 as [<-|[]]; destruct Hw2 as [<-|[]].
    cbn [map fst] in Hnd. inversion Hnd as [|? ? Hn _]. exfalso; apply Hn; left; reflexivity.
Qed.

(** The solver left at 1 on every variable of an infeasible program meets
    the contract, which promises nothing there. *)
Lemma ones_when_infeasible_ok : solver_ok ones_when_infeasible.
Proof.
  intros p. destruct (bf_solve_ok p) as [H1 H2]. unfold ones_when_infeasible.
  destruct (bf_solve p) as [st v]. destruct st; cbn [fst snd] in *.
  - split; assumption.
  - split; [intros Hex; apply H1 in Hex; discriminate | intros E; discriminate].
  - split; [intros Hex; apply H1 in Hex; discriminate | intros E; discriminate].
  - split; [intros Hex; apply H1 in Hex; discriminate | intros E; discriminate].
  - split; [intros Hex; apply H1 in Hex; discriminate | intros E; discriminate].
Qed.

(** The only exception of the read-back: a selected team without a game
    in its week. *)
Lemma collect_Err_cause : forall set_list df sel rem v e,
  collect_metrics set_list df sel rem v = Err e ->
  e = IndexError /\
  exists w t, In w rem /\ In t (available_teams set_list df sel) /\ v (w, t) = 1 /\
    find (game_matches w t) df = None.
Proof.
  intros set_list df sel rem v e H; unfold collect_metrics in H.
  destruct (map_res _ rem) as [rows|e'] eqn:E; cbn in H; [discriminate|].
  injection H as <-.
  apply map_res_Err in E as [w [Hw Hws]].
  apply map_res_Err in Hws as [t [Ht Hmk]].
  apply filter_In in Ht as [Ht Hv]. apply Z.eqb_eq in Hv.
  apply make_metric_Err in Hmk as [-> Hf].
  split; [reflexivity|]. exists w, t; repeat split; assumption.
Qed.

Lemma make_metric_f_Ok : forall df w t m, make_metric_f df w t = Ok m ->
  exists g, find (game_matches_f w t) df = Some g /\
    m = mkFMetric w t
          (if String.eqb t (od_home g) then od_away g else od_home g)
          (if String.eqb t (od_home g) then od_home_prob g else od_away_prob g)
          (if String.eqb t (od_home g) then od_away_prob g else od_home_prob g)
          (if String.eqb t (od_home g) then od_home_prob g else od_away_prob g)
          (reason_f t
             (if String.eqb t (od_home g) then od_home_prob g else od_away_prob g)
             (if String.eqb t (od_home g) then od_away_prob g else od_home_prob g)).
Proof.
  intros df w t m H; unfold make_metric_f in H.
  destruct (find (game_matches_f w t) df) as [g|] eqn:E; [|discriminate].
  injection H as <-. exists g; split; reflexivity.
Qed.

Lemma collect_f_Ok_In : forall set_list df sel rem v ms m,
  collect_metrics_f set_list df sel rem v = Ok ms -> In m ms ->
  make_metric_f df (f_week m) (f_selected_team m) = Ok m.
Proof.
  intros set_list df sel rem v ms m H Hm; unfold collect_metrics_f in H.
  destruct (map_res _ rem) as [rows|e] eqn:E; cbn in H; [|discriminate].
  injection H as <-.
  apply in_concat in Hm as [ms_w [Hrow Hm]].
  apply map_res_Forall2 in E.
  destruct (Forall2_In_l _ _ _ _ E Hrow) as [w [_ Hws]].
  apply map_res_Forall2 in Hws.
  destruct (Forall2_In_l _ _ _ _ Hws Hm) as [t [_ Hmt]].
  pose proof Hmt as Hmt'. apply make_metric_f_Ok in Hmt' as [g [_ Em]].
  rewrite Em in Hmt |- *. exact Hmt.
Qed.

Lemma str_length_app : forall s1 s2,
  String.length (s1 ++ s2) = (String.length s1 + String.length s2)%nat.
Proof. intros s1 s2; induction s1 as [|c s1 IH]; cbn; [reflexivity | rewrite IH; reflexivity]. Qed.

Lemma fixed_point4_length : forall s, fixed_point4 s -> (5 <= String.length s)%nat.
Proof.
  intros s [sgn [ip [fp [-> [_ [_ [_ [Hl _]]]]]]]].
  rewrite !str_length_app. cbn [String.length]. lia.
Qed.

End ReadBackFacts.

Import ReadBackFacts.

(* ================================================================== *)
(** * The claims *)

(** C5: no team of [selected_teams] is ever the selected team of an
    entry of the returned plan. *)
Theorem C5_exclusion_respected :
  forall set_list solve df cw sel dur ms m,
  optimize_survivor_pool set_list solve df cw sel dur = Ok ms -> In m ms ->
  ~ In (m_selected_team m) sel.
Proof.
  intros set_list solve df cw sel dur ms m H Hm.
  unfold optimize_survivor_pool in H.
  destruct (horizon df cw dur) as [rem|]; [|discriminate].
  destruct (collect_Ok_In set_list df sel rem _ ms m H Hm) as [_ [Ht _]].
  apply available_In in Ht; tauto.
Qed.

Lemma C5_exclusion_respected_witness :
  exists ms, optimize_survivor_pool dedup bf_solve table_excluded_opponent 1 ["B"] 1 = Ok ms /\
  forall m, In m ms -> ~ In (m_selected_team m) ["B"].
Proof.
  eexists; split; [vm_compute; reflexivity|].
  intros m; apply (C5_exclusion_respected dedup bf_solve table_excluded_opponent 1 ["B"] 1).
  vm_compute; reflexivity.
Defined.

(** C6: every entry's week lies in [current_week, current_week +
    optimization_duration - 1] clipped to the largest week of the table,
    and is a week of the table. *)
Theorem C6_horizon_clipping :
  forall set_list solve df cw sel dur ms,
  optimize_survivor_pool set_list solve df cw sel dur = Ok ms ->
  exists mx, py_max (weeks df) = Some mx /\
  forall m, In m ms ->
    cw <= m_week m <= Z.min (cw + dur - 1) mx /\ In (m_week m) (map Week df).
Proof.
  intros set_list solve df cw sel dur ms H.
  unfold optimize_survivor_pool in H.
  destruct (horizon df cw dur) as [rem|] eqn:Eh; [|discriminate].
  destruct (horizon_spec df cw dur rem Eh) as [mx [Emx [_ Hrem]]].
  exists mx; split; [exact Emx|]. intros m Hm.
  destruct (collect_Ok_In set_list df sel rem _ ms m H Hm) as [Hw _].
  apply Hrem in Hw; tauto.
Qed.

Lemma C6_horizon_clipping_witness :
  exists ms, optimize_survivor_pool dedup bf_solve table_example 2 [] 5 = Ok ms /\
  exists mx, py_max (weeks table_example) = Some mx /\
  forall m, In m ms -> 2 <= m_week m <= Z.min (2 + 5 - 1) mx /\ In (m_week m) (map Week table_example).
Proof.
  eexists; split; [vm_compute; reflexivity|].
  apply (C6_horizon_clipping dedup bf_solve table_example 2 [] 5).
  vm_compute; reflexivity.
Defined.

(** C9, as stated: a missing price. The frame the fetch returns when the
    DraftKings price of the away team B is missing holds [NaN] for B;
    with B excluded and a one-week horizon the call selects A, and the
    reason renders B's probability as "nan", not with four decimals. *)
Lemma C9_counterexample :
  get_all_weeks_odds_df nan_http "k" = FOk nan_frame /\
  optimize_survivor_pool_f dedup bf_solve_f nan_frame 1 ["B"] 1 =
    Ok [mkFMetric 1 "A" "B" (PNum (9 # 10)) PNaN (PNum (9 # 10))
          "Selected A due to higher probability of 0.9000 compared to opponent's probability of nan"] /\
  ~ fixed_point4 "nan".
Proof.
  split; [vm_compute; reflexivity|]. split; [vm_compute; reflexivity|].
  intros H; apply fixed_point4_length in H; cbn in H; lia.
Qed.

(** C9, amended: on the frame as fetched, each entry is built from the
    first row of its week in which the selected team plays: the selected
    team, its probability, the other side of that row and its
    probability, the expected value (the selected probability), and a
    reason with both probabilities rendered by [:.4f]. A probability
    that is a number gets exactly four decimals; [NaN] (missing price)
    and [inf] (zero price) are rendered "nan" and "inf". *)
Theorem C9_entry_fields :
  forall set_list solve df cw sel dur ms m,
  optimize_survivor_pool_f set_list solve df cw sel dur = Ok ms -> In m ms ->
  exists g, In g df /\ find (game_matches_f (f_week m) (f_selected_team m)) df = Some g /\
    od_week g = f_week m /\
    ((od_home g = f_selected_team m /\ f_opponent_team m = od_away g /\
      f_selected_prob m = od_home_prob g /\ f_opponent_prob m = od_away_prob g) \/
     (od_away g = f_selected_team m /\ od_home g <> f_selected_team m /\
      f_opponent_team m = od_home g /\
      f_selected_prob m = od_away_prob g /\ f_opponent_prob m = od_home_prob g)) /\
    f_expected_value m = f_selected_prob m /\
    f_reason m = "Selected " ++ f_selected_team m ++ " due to higher probability of "
                 ++ fmtf (f_selected_prob m) ++ " compared to opponent's probability of "
                 ++ fmtf (f_opponent_prob m) /\
    (forall q, f_selected_prob m = PNum q -> fixed_point4 (fmtf (f_selected_prob m))) /\
    (forall q, f_opponent_prob m = PNum q -> fixed_point4 (fmtf (f_opponent_prob m))).
Proof.
  intros set_list solve df cw sel dur ms m H Hm.
  unfold optimize_survivor_pool_f in H.
  destruct (horizon (map frame_columns df) cw dur) as [rem|]; [|discriminate].
  pose proof (collect_f_Ok_In set_list df sel rem _ ms m H Hm) as Hmk.
  apply make_metric_f_Ok in Hmk as [g [Hf Em]].
  exists g. pose proof Hf as Hf'. apply find_some in Hf' as [Hg Hmatch].
  unfold game_matches_f in Hmatch. apply andb_true_iff in Hmatch as [Hw Hteam].
  apply Z.eqb_eq in Hw.
  split; [exact Hg|]. split; [exact Hf|]. split; [exact Hw|].
  rewrite Em; cbn [f_week f_selected_team f_opponent_team f_selected_prob
                   f_opponent_prob f_expected_value f_reason].
  rewrite Em in Hteam; cbn [f_week f_selected_team] in Hteam.
  split; [|split; [reflexivity | split; [reflexivity|]]].
  - destruct (String.eqb (f_selected_team m) (od_home g)) eqn:Et.
    + apply String.eqb_eq in Et. left; repeat split; congruence.
    + right. apply orb_true_iff in Hteam as [Hh|Ha].
      * apply String.eqb_eq in Hh. apply String.eqb_neq in Et. congruence.
      * apply String.eqb_eq in Ha. apply String.eqb_neq in Et.
        repeat split; try reflexivity; congruence.
  - split; intros q Eq; rewrite Eq; apply fmt4_fixed_point4.
Qed.

Lemma C9_entry_fields_witness :
  exists ms, optimize_survivor_pool_f dedup bf_solve_f nan_frame 1 ["B"] 1 = Ok ms /\
  forall m, In m ms ->
  exists g, In g nan_frame /\ find (game_matches_f (f_week m) (f_selected_team m)) nan_frame = Some g /\
    od_week g = f_week m /\
    ((od_home g = f_selected_team m /\ f_opponent_team m = od_away g /\
      f_selected_prob m = od_home_prob g /\ f_opponent_prob m = od_away_prob g) \/
     (od_away g = f_selected_team m /\ od_home g <> f_selected_team m /\
      f_opponent_team m = od_home g /\
      f_selected_prob m = od_away_prob g /\ f_opponent_prob m = od_home_prob g)) /\
    f_expected_value m = f_selected_prob m /\
    f_reason m = "Selected " ++ f_selected_team m ++ " due to higher probability of "
                 ++ fmtf (f_selected_prob m) ++ " compared to opponent's probability of "
                 ++ fmtf (f_opponent_prob m) /\
    (forall q, f_selected_prob m = PNum q -> fixed_point4 (fmtf (f_selected_prob m))) /\
    (forall q, f_opponent_prob m = PNum q -> fixed_point4 (fmtf (f_opponent_prob m))).
Proof.
  eexists; split; [vm_compute; reflexivity|].
  intros m; apply (C9_entry_fields dedup bf_solve_f nan_frame 1 ["B"] 1).
  vm_compute; reflexivity.
Defined.

(** C10: the reason of every entry is the fixed template "Selected
    {team} due to higher probability of {p:.4f} compared to opponent's
    probability of {q:.4f}", whatever the two probabilities are; the
    witness is an input where the optimum takes the weaker side of a game
    and the reason still says "higher probability". *)
Theorem C10_reason_template :
  forall set_list solve df cw sel dur ms m,
  optimize_survivor_pool set_list solve df cw sel dur = Ok ms -> In m ms ->
  m_reason m = "Selected " ++ m_selected_team m ++ " due to higher probability of "
               ++ fmt4 (m_selected_prob m) ++ " compared to opponent's probability of "
               ++ fmt4 (m_opponent_prob m).
Proof.
  intros set_list solve df cw sel dur ms m H Hm.
  unfold optimize_survivor_pool in H.
  destruct (horizon df cw dur) as [rem|]; [|discriminate].
  destruct (collect_Ok_In set_list df sel rem _ ms m H Hm) as [_ [_ [_ Hmk]]].
  apply make_metric_Ok in Hmk as [g [_ Em]].
  rewrite Em; reflexivity.
Qed.

Lemma C10_reason_template_witness :
  exists ms m,
    optimize_survivor_pool dedup bf_solve table_weaker_pick 1 [] 2 = Ok ms /\ In m ms /\
    m_week m = 1 /\ m_selected_team m = "B" /\ Qlt (m_selected_prob m) (m_opponent_prob m) /\
    m_reason m = "Selected B due to higher probability of 0.4000 compared to opponent's probability of 0.6000".
Proof.
  pose (ms := match optimize_survivor_pool dedup bf_solve table_weaker_pick 1 [] 2 with
              | Ok ms => ms | Err _ => [] end).
  pose (m := hd (mkMetric 0 "" "" 0 0 0 "") ms).
  exists ms, m.
  split; [vm_compute; reflexivity|].
  split; [vm_compute; left; reflexivity|].
  split; [vm_compute; reflexivity|].
  split; [vm_compute; reflexivity|].
  split; [vm_compute; reflexivity|].
  rewrite (C10_reason_template dedup bf_solve table_weaker_pick 1 [] 2 ms m)
    by (vm_compute; first [reflexivity | left; reflexivity]).
  vm_compute; reflexivity.
Defined.

(** C7, as stated: with a zero duration the call does not fail; it
    returns an empty plan (also with a current week past the table). *)
Lemma C7_counterexample :
  optimize_survivor_pool dedup bf_solve table_example 1 [] 0 = Ok [] /\
  optimize_survivor_pool dedup bf_solve table_example 5 [] 1 = Ok [].
Proof. split; vm_compute; reflexivity. Qed.

(** C7, amended: there is no horizon check. When the duration is not
    positive, or every week of the table is before the current week, the
    horizon is empty and the call returns an empty plan whatever the
    solver does; only an empty table raises ([ValueError] from [max]). *)
Theorem C7_empty_horizon_empty_plan :
  forall set_list solve df cw sel dur,
  (dur <= 0 \/ forall w, In w (map Week df) -> w < cw) ->
  optimize_survivor_pool set_list solve df cw sel dur =
  match df with [] => Err ValueError | _ :: _ => Ok [] end.
Proof.
  intros set_list solve df cw sel dur Hh.
  unfold optimize_survivor_pool.
  destruct (horizon df cw dur) as [rem|] eqn:Eh.
  - destruct (horizon_spec df cw dur rem Eh) as [mx [Emx [_ Hrem]]].
    destruct rem as [|w rem'].
    + destruct df as [|r df']; [discriminate|]. reflexivity.
    + exfalso. destruct (proj1 (Hrem w) (or_introl eq_refl)) as [Hw Hb].
      destruct Hh as [Hd|Hlt]; [lia|]. specialize (Hlt w Hw); lia.
  - destruct df as [|r df']; [reflexivity|].
    unfold horizon in Eh. simpl in Eh. discriminate.
Qed.

Lemma C7_empty_horizon_empty_plan_witness :
  (0 <= 0 \/ forall w, In w (map Week table_example) -> w < 1) /\
  optimize_survivor_pool dedup bf_solve table_example 1 [] 0 = Ok [].
Proof.
  split; [left; lia|].
  apply (C7_empty_horizon_empty_plan dedup bf_solve table_example 1 [] 0).
  left; lia.
Defined.

(** C8, as stated: A plays in two games of week 1, and the call returns
    a plan instead of failing; the entry comes from the first of the two
    rows (opponent B, probability 0.6). *)
Lemma C8_counterexample :
  optimize_survivor_pool dedup bf_solve table_duplicate 1 [] 1 =
  Ok [mkMetric 1 "A" "B" (6 # 10) (4 # 10) (6 # 10) (reason "A" (6 # 10) (4 # 10))].
Proof. vm_compute; reflexivity. Qed.

(** C8, amended: the code has no conflicting-event check. The only
    exceptions it raises are [ValueError] (empty table) and [IndexError],
    which happens only when the solver's values select an available team
    of a horizon week in which that team has no game; a selected team
    that plays twice in its week raises nothing and is reported from the
    first of its rows of that week. *)
Theorem C8_no_conflict_check :
  forall set_list solve df cw sel dur,
  match optimize_survivor_pool set_list solve df cw sel dur with
  | Err e =>
      (df = [] /\ e = ValueError) \/
      (e = IndexError /\
       exists rem w t, horizon df cw dur = Some rem /\ In w rem /\
         In t (available_teams set_list df sel) /\
         snd (solve (problem set_list df sel rem)) (w, t) = 1 /\
         find (game_matches w t) df = None)
  | Ok ms => forall m, In m ms ->
      exists g, find (game_matches (m_week m) (m_selected_team m)) df = Some g /\
        m_selected_prob m =
          (if String.eqb (m_selected_team m) (HomeTeam g) then HomeProbability g
           else AwayProbability g) /\
        m_opponent_team m =
          (if String.eqb (m_selected_team m) (HomeTeam g) then AwayTeam g else HomeTeam g)
  end.
Proof.
  intros set_list solve df cw sel dur.
  destruct (optimize_survivor_pool set_list solve df cw sel dur) as [ms|e] eqn:E;
    unfold optimize_survivor_pool in E.
  - intros m Hm. destruct (horizon df cw dur) as [rem|]; [|discriminate].
    destruct (collect_Ok_In set_list df sel rem _ ms m E Hm) as [_ [_ [_ Hmk]]].
    apply make_metric_Ok in Hmk as [g [Hf Em]].
    exists g; rewrite Em; simpl; split; [exact Hf | split; reflexivity].
  - destruct (horizon df cw dur) as [rem|] eqn:Eh.
    + right. apply collect_Err_cause in E as [He [w [t [Hw [Ht [Hv Hf]]]]]].
      split; [exact He|]. exists rem, w, t. repeat split; assumption.
    + left; inversion E; split; [|reflexivity].
      destruct df as [|r df']; [reflexivity|]. unfold horizon in Eh; simpl in Eh; discriminate.
Qed.

(** C4, as stated: with A excluded, the one available team B cannot fill
    the two weeks of [table_example]; the program is infeasible, the
    status is only printed, and with a solver that leaves its variables
    at 1 (as the contract allows there) the plan selects B twice. *)
Lemma C4_counterexample :
  solver_ok ones_when_infeasible /\
  optimize_survivor_pool dedup ones_when_infeasible table_example 1 ["A"] 14 =
    Ok [mkMetric 1 "B" "A" (5 # 10) (9 # 10) (5 # 10) (reason "B" (5 # 10) (9 # 10));
        mkMetric 2 "B" "A" (8 # 10) (6 # 10) (8 # 10) (reason "B" (8 # 10) (6 # 10))].
Proof. split; [exact ones_when_infeasible_ok | vm_compute; reflexivity]. Qed.

(** C4, amended: no team appears in two entries of the returned plan on
    every input whose horizon can be filled (at least as many available
    teams as horizon weeks, so that the solver reaches an optimum, whose
    team constraints hold). *)
Theorem C4_each_team_once :
  forall set_list solve df cw sel dur rem ms,
  set_list_ok set_list -> solver_ok solve ->
  horizon df cw dur = Some rem ->
  (List.length rem <= List.length (available_teams set_list df sel))%nat ->
  optimize_survivor_pool set_list solve df cw sel dur = Ok ms ->
  NoDup (map m_selected_team ms).
Proof.
  intros set_list solve df cw sel dur rem ms Hs Hsolve Eh Hlen H.
  destruct (horizon_spec df cw dur rem Eh) as [mx [_ [Hnr _]]].
  pose proof (available_NoDup set_list df sel Hs) as Hna.
  destruct (solver_optimum set_list df sel rem solve Hsolve Hnr Hna Hlen) as [_ [Hfeas _]].
  unfold optimize_survivor_pool in H; rewrite Eh in H.
  replace (map m_selected_team ms) with (map snd (plan_keys ms))
    by (unfold plan_keys; rewrite map_map; reflexivity).
  rewrite (collect_plan_keys set_list df sel rem _ ms H).
  exact (plan_teams_NoDup set_list df sel rem _ Hnr Hna Hfeas).
Qed.

Lemma C4_each_team_once_witness :
  exists ms, optimize_survivor_pool dedup bf_solve table_example 1 [] 14 = Ok ms /\
  NoDup (map m_selected_team ms).
Proof.
  eexists; split; [vm_compute; reflexivity|].
  apply (C4_each_team_once dedup bf_solve table_example 1 [] 14 [1; 2]).
  - apply dedup_ok.
  - apply bf_solve_ok.
  - vm_compute; reflexivity.
  - apply Nat.leb_le; vm_compute; reflexivity.
  - vm_compute; reflexivity.
Defined.

(** C2, as stated: week 1 has two teams, both excluded; the call does
    not report week 1 unfilled and solve week 2, it raises. *)
Lemma C2_counterexample :
  optimize_survivor_pool dedup bf_solve table_empty_week 1 ["A"; "B"] 2 = Err IndexError.
Proof. vm_compute; reflexivity. Qed.

(** C2, amended: the code never reports an unfilled week. When every
    team playing in a horizon week is in [selected_teams], and the
    horizon has at least as many available teams as weeks (so the solver
    reaches an optimum), the week's [== 1] constraint puts an available
    team that has no game that week into it, the lookup [.iloc[0]] of its
    game fails and the whole call raises [IndexError]. *)
Theorem C2_week_without_eligible_team_raises :
  forall set_list solve df cw sel dur rem w,
  set_list_ok set_list -> solver_ok solve ->
  horizon df cw dur = Some rem ->
  (List.length rem <= List.length (available_teams set_list df sel))%nat ->
  In w rem ->
  (forall g, In g df -> Week g = w -> In (HomeTeam g) sel /\ In (AwayTeam g) sel) ->
  optimize_survivor_pool set_list solve df cw sel dur = Err IndexError.
Proof.
  intros set_list solve df cw sel dur rem w Hs Hsolve Eh Hlen Hw Hexcl.
  destruct (horizon_spec df cw dur rem Eh) as [mx [_ [Hnr _]]].
  pose proof (available_NoDup set_list df sel Hs) as Hna.
  destruct (solver_optimum set_list df sel rem solve Hsolve Hnr Hna Hlen)
    as [_ [[Hb [_ Hweek]] _]].
  set (v := snd (solve (problem set_list df sel rem))) in *.
  destruct (sum_one_exists (fun t => v (w, t)) (available_teams set_list df sel))
    as [t [Ht Hvt]].
  { intros t Ht; apply Hb; assumption. }
  { apply Hweek; exact Hw. }
  assert (Hmk : make_metric df w t = Err IndexError).
  { unfold make_metric. destruct (find (game_matches w t) df) as [g|] eqn:Ef; [|reflexivity].
    exfalso. apply find_some in Ef as [Hg Hm]. unfold game_matches in Hm.
    apply andb_true_iff in Hm as [Hwk Hteam]. apply Z.eqb_eq in Hwk.
    destruct (Hexcl g Hg Hwk) as [Hh Ha].
    apply available_In in Ht as [_ Hnot].
    apply orb_true_iff in Hteam as [E|E]; apply String.eqb_eq in E; subst t; contradiction. }
  unfold optimize_survivor_pool; rewrite Eh.
  change (collect_metrics set_list df sel rem v = Err IndexError).
  destruct (collect_metrics set_list df sel rem v) as [ms|e] eqn:Ec.
  - exfalso. unfold collect_metrics in Ec.
    destruct (map_res _ rem) as [rows|e] eqn:Er; simpl in Ec; [|discriminate].
    destruct (map_res_Ok_each _ _ _ w Er Hw) as [b Hb'].
    apply (map_res_not_Ok (make_metric df w)
             (filter (fun t => Z.eqb (v (w, t)) 1) (available_teams set_list df sel))
             t IndexError) with (bs := b).
    + apply filter_In; split; [exact Ht | apply Z.eqb_eq; exact Hvt].
    + exact Hmk.
    + exact Hb'.
  - apply collect_Err in Ec. subst; reflexivity.
Qed.

Lemma C2_week_without_eligible_team_raises_witness :
  optimize_survivor_pool dedup bf_solve table_empty_week 1 ["A"; "B"] 2 = Err IndexError.
Proof.
  apply (C2_week_without_eligible_team_raises dedup bf_solve table_empty_week 1 ["A"; "B"] 2
           [1; 2] 1).
  - apply dedup_ok.
  - apply bf_solve_ok.
  - vm_compute; reflexivity.
  - apply Nat.leb_le; vm_compute; reflexivity.
  - simpl; left; reflexivity.
  - intros g [<-|[<-|[]]]; simpl; intros E; [split; simpl; auto | discriminate].
Defined.

(** C1, as stated: in week 1, A (0.9) plays the excluded B and C (0.6)
    plays D. The spec's weight of picking A is 0.9, yet the returned plan
    picks C, whose total 0.6 is smaller: the edge of A adds nothing to
    the code's objective because its opponent is excluded. *)
Lemma C1_counterexample :
  horizon table_excluded_opponent 1 1 = Some [1] /\
  optimize_survivor_pool dedup bf_solve table_excluded_opponent 1 ["B"] 1 =
    Ok [mkMetric 1 "C" "D" (6 # 10) (4 # 10) (6 # 10) (reason "C" (6 # 10) (4 # 10))] /\
  spec_edge_weight table_excluded_opponent ["B"] 1 "A" = Some (9 # 10) /\
  Qlt (plan_total [mkMetric 1 "C" "D" (6 # 10) (4 # 10) (6 # 10)
                     (reason "C" (6 # 10) (4 # 10))]) (9 # 10).
Proof. vm_compute; repeat split; reflexivity. Qed.

(** C1: the objective of lines 117-125 keeps an event only when both of
    its teams are available. On the input of [C1_counterexample], every
    exact solver makes the call pick C (0.6), though A (0.9) is
    available and its opponent B is the excluded team. *)
Theorem C1_excluded_opponent_edge_dropped :
  forall solve, solver_ok solve ->
  optimize_survivor_pool dedup solve table_excluded_opponent 1 ["B"] 1 =
    Ok [mkMetric 1 "C" "D" (6 # 10) (4 # 10) (6 # 10) (reason "C" (6 # 10) (4 # 10))] /\
  spec_edge_weight table_excluded_opponent ["B"] 1 "A" = Some (9 # 10).
Proof.
  intros solve Hsolve. split; [|vm_compute; reflexivity].
  assert (Eh : horizon table_excluded_opponent 1 1 = Some [1]) by (vm_compute; reflexivity).
  assert (Eav : available_teams dedup table_excluded_opponent ["B"] = ["A"; "C"; "D"])
    by (vm_compute; reflexivity).
  assert (Hnr : NoDup [1]) by (constructor; [intros [] | constructor]).
  pose proof (available_NoDup dedup table_excluded_opponent ["B"] dedup_ok) as Hna.
  assert (Hlen : (List.length [1] <=
                  List.length (available_teams dedup table_excluded_opponent ["B"]))%nat)
    by (rewrite Eav; cbn; lia).
  destruct (solver_optimum dedup table_excluded_opponent ["B"] [1] solve Hsolve Hnr Hna Hlen)
    as [_ [Hfeas Hopt]].
  unfold optimize_survivor_pool; rewrite Eh; cbv beta iota zeta.
  set (v := snd (solve (problem dedup table_excluded_opponent ["B"] [1]))) in *.
  pose proof (plan_is_assignment dedup table_excluded_opponent ["B"] [1] v Hnr Hna Hfeas) as Hpa.
  destruct (assignment_single _ _ _ Hpa) as [t [Ht EP]].
  assert (Hv : forall w' t', In w' [1] ->
                 In t' (available_teams dedup table_excluded_opponent ["B"]) ->
                 v (w', t') = indicator [(1, t)] (w', t')).
  { intros w' t' Hw' Ht'. rewrite <- EP. symmetry.
    exact (indicator_pairs dedup table_excluded_opponent ["B"] [1] v Hfeas w' t' Hw' Ht'). }
  assert (Hc : assignment_ok [1] (available_teams dedup table_excluded_opponent ["B"]) [(1, "C")]).
  { unfold assignment_ok; rewrite Eav; cbn [map fst snd].
    split; [constructor; [split; cbn; auto | constructor]|].
    split; [constructor; [intros [] | constructor]|].
    split; [constructor; [intros [] | constructor]|].
    intros w Hw; exact Hw. }
  pose proof (Hopt _ Hc) as Hle.
  assert (Eobj : objective (problem dedup table_excluded_opponent ["B"] [1]) v =
                 objective (problem dedup table_excluded_opponent ["B"] [1]) (indicator [(1, t)])).
  { apply objective_ext. intros [w' t'] Hk.
    apply lp_vars_problem in Hk as [Hw' Ht']; cbn [fst snd] in Hw', Ht'. apply Hv; assumption. }
  fold v in Hle. rewrite Eobj in Hle.
  rewrite Eav in Ht. destruct Ht as [<- | [<- | [<- | []]]].
  - exfalso. vm_compute in Hle. apply Hle; reflexivity.
  - rewrite (collect_metrics_ext dedup table_excluded_opponent ["B"] [1] v (indicator [(1, "C")]) Hv).
    vm_compute; reflexivity.
  - exfalso. vm_compute in Hle. apply Hle; reflexivity.
Qed.

Lemma C1_excluded_opponent_edge_dropped_witness :
  optimize_survivor_pool dedup bf_solve table_excluded_opponent 1 ["B"] 1 =
    Ok [mkMetric 1 "C" "D" (6 # 10) (4 # 10) (6 # 10) (reason "C" (6 # 10) (4 # 10))] /\
  spec_edge_weight table_excluded_opponent ["B"] 1 "A" = Some (9 # 10).
Proof. apply (C1_excluded_opponent_edge_dropped bf_solve). apply bf_solve_ok. Defined.

(* ================================================================== *)
(** * Further properties of the code *)

(** ** Helper facts *)

Module MoreSumFacts.

Lemma sumZ_cons : forall x l, sumZ (x :: l) = x + sumZ l.
Proof. reflexivity. Qed.

Lemma sumZ_ext_in {A} : forall (f g : A -> Z) l,
  (forall x, In x l -> f x = g x) -> sumZ (map f l) = sumZ (map g l).
Proof. intros f g l H; f_equal; apply map_ext_in; exact H. Qed.

Lemma sumZ_le {A} : forall (f g : A -> Z) l,
  (forall x, In x l -> f x <= g x) -> sumZ (map f l) <= sumZ (map g l).
Proof.
  intros f g l H; induction l as [|a l IH]; cbn [map]; [lia|].
  rewrite !sumZ_cons. pose proof (H a (or_introl eq_refl)).
  assert (sumZ (map f l) <= sumZ (map g l)) by (apply IH; intros x Hx; apply H; right; exact Hx).
  lia.
Qed.

Lemma sumZ_ones {A} : forall l : list A, sumZ (map (fun _ => 1) l) = Z.of_nat (List.length l).
Proof. induction l as [|a l IH]; cbn [map List.length]; [reflexivity|]. rewrite sumZ_cons, IH; lia. Qed.

Lemma sumZ_add {A} : forall (f g : A -> Z) l,
  sumZ (map (fun x => f x + g x) l) = sumZ (map f l) + sumZ (map g l).
Proof. intros f g l; induction l as [|a l IH]; cbn [map]; [reflexivity|]. rewrite !sumZ_cons, IH; lia. Qed.

Lemma sumZ_zero {A} : forall l : list A, sumZ (map (fun _ => 0) l) = 0.
Proof. induction l as [|a l IH]; cbn [map]; [reflexivity|]. rewrite sumZ_cons, IH; lia. Qed.

(** Exchange of a double finite sum. *)
Lemma sumZ_swap {A B} : forall (f : A -> B -> Z) (W : list A) (T : list B),
  sumZ (map (fun w => sumZ (map (fun t => f w t) T)) W) =
  sumZ (map (fun t => sumZ (map (fun w => f w t) W)) T).
Proof.
  intros f W T; induction W as [|w W IH]; cbn [map].
  - symmetry; apply sumZ_zero.
  - rewrite sumZ_cons, IH.
    rewrite <- (sumZ_add (fun t => f w t) (fun t => sumZ (map (fun w0 => f w0 t) W)) T).
    apply sumZ_ext_in; intros t _; reflexivity.
Qed.

End MoreSumFacts.

Import MoreSumFacts.

Module OrderFacts.

Lemma StronglySorted_app {A} (R : A -> A -> Prop) : forall l1 l2,
  StronglySorted R l1 -> StronglySorted R l2 ->
  (forall x y, In x l1 -> In y l2 -> R x y) -> StronglySorted R (l1 ++ l2).
Proof.
  induction l1 as [|a l1 IH]; intros l2 H1 H2 H12; simpl; [exact H2|].
  apply StronglySorted_inv in H1 as [H1 Ha].
  constructor.
  - apply IH; [exact H1 | exact H2 |]. intros x y Hx Hy; apply H12; [right|]; assumption.
  - apply Forall_app; split; [exact Ha|].
    apply Forall_forall; intros y Hy; apply H12; [left; reflexivity | exact Hy].
Qed.

Lemma StronglySorted_filter {A} (R : A -> A -> Prop) : forall (p : A -> bool) l,
  StronglySorted R l -> StronglySorted R (filter p l).
Proof.
  intros p l H; induction H as [|a l Hl IH Ha]; simpl; [constructor|].
  destruct (p a); [|exact IH].
  constructor; [exact IH|].
  apply Forall_forall; intros y Hy; apply filter_In in Hy as [Hy _].
  rewrite Forall_forall in Ha; apply Ha; exact Hy.
Qed.

Lemma StronglySorted_seq : forall a n,
  StronglySorted Z.lt (map Z.of_nat (seq a n)).
Proof.
  intros a n; revert a; induction n as [|n IH]; intros a; simpl; constructor; [apply IH|].
  apply Forall_forall; intros y Hy; apply in_map_iff in Hy as [k [<- Hk]].
  apply in_seq in Hk; lia.
Qed.

(** Two strictly increasing lists with the same elements are equal. *)
Lemma StronglySorted_lt_eq : forall l1 l2,
  StronglySorted Z.lt l1 -> StronglySorted Z.lt l2 ->
  (forall x, In x l1 <-> In x l2) -> l1 = l2.
Proof.
  induction l1 as [|a l1 IH]; intros [|b l2] H1 H2 Hin.
  - reflexivity.
  - exfalso; apply (proj2 (Hin b)); left; reflexivity.
  - exfalso; apply (proj1 (Hin a)); left; reflexivity.
  - apply StronglySorted_inv in H1 as [H1 Ha]; apply StronglySorted_inv in H2 as [H2 Hb].
    rewrite Forall_forall in Ha, Hb.
    assert (Eab : a = b).
    { destruct (proj1 (Hin a) (or_introl eq_refl)) as [E|Ha2]; [congruence|].
      destruct (proj2 (Hin b) (or_introl eq_refl)) as [E|Hb1]; [congruence|].
      specialize (Ha b Hb1); specialize (Hb a Ha2); lia. }
    subst b. f_equal. apply IH; [exact H1 | exact H2 |].
    intros x; split; intros Hx.
    + destruct (proj1 (Hin x) (or_intror Hx)) as [E|H]; [|exact H].
      subst x; specialize (Ha a Hx); lia.
    + destruct (proj2 (Hin x) (or_intror Hx)) as [E|H]; [|exact H].
      subst x; specialize (Hb a Hx); lia.
Qed.

(** [unique] keeps a non-decreasing list strictly increasing. *)
Lemma unique_aux_sorted : forall l seen,
  StronglySorted Z.le l -> StronglySorted Z.lt (unique_aux seen l).
Proof.
  induction l as [|x l IH]; intros seen H; simpl; [constructor|].
  apply StronglySorted_inv in H as [H Hx]. rewrite Forall_forall in Hx.
  destruct (mem_Z x seen) eqn:E; [apply IH; exact H|].
  constructor; [apply IH; exact H|].
  apply Forall_forall; intros y Hy.
  apply unique_aux_In in Hy as [Hy Hns].
  specialize (Hx y Hy).
  assert (x <> y) by (intros <-; apply Hns; left; reflexivity). lia.
Qed.

End OrderFacts.

Import OrderFacts.

(** ** The fetching code *)

Module FetchFacts.

Lemma season_weeks_dates : forall w, In w season_weeks -> week_dates w <> None.
Proof.
  assert (H : forallb (fun w => match week_dates w with Some _ => true | None => false end)
                season_weeks = true) by (vm_compute; reflexivity).
  rewrite forallb_forall in H. intros w Hw E. specialize (H w Hw). rewrite E in H. discriminate.
Qed.

Lemma season_weeks_range : forall w, In w season_weeks -> 1 <= w <= 18.
Proof. intros w Hw; unfold season_weeks in Hw; apply in_map_iff in Hw as [k [<- Hk]]; apply in_seq in Hk; lia. Qed.

Lemma season_weeks_NoDup : NoDup season_weeks.
Proof.
  pose proof (StronglySorted_seq 1 18) as H; fold season_weeks in H.
  induction H as [|a l _ IH Ha]; constructor; [|exact IH].
  rewrite Forall_forall in Ha; intros Hin; specialize (Ha a Hin); lia.
Qed.

Lemma collect_weeks_ok : forall http_get api_key ws,
  (forall w, In w ws -> week_dates w <> None) ->
  collect_weeks http_get api_key ws =
  FOk (flat_map (fun w => map (game_data w) (fetched_games http_get api_key w)) ws).
Proof.
  intros http_get api_key ws; induction ws as [|w ws IH]; intros H; simpl; [reflexivity|].
  rewrite IH by (intros w' Hw'; apply H; right; exact Hw').
  unfold week_rows, fetched_games, get_weekly_odds.
  destruct (week_dates w) as [[s e]|] eqn:E; [|exfalso; apply (H w (or_introl eq_refl)); exact E].
  destruct (Z.eqb _ 200); reflexivity.
Qed.

Lemma add_days_Some : forall o k o', add_days o k = Some o' -> o' = o + k.
Proof.
  intros o k o'; unfold add_days.
  destruct (Z.ltb 0 (o + k) && Z.leb (o + k) MAXORDINAL)%bool; [|discriminate].
  intros H; injection H as <-; reflexivity.
Qed.

Lemma week_dates_Some : forall n s e,
  week_dates n = Some (s, e) -> s = season_start + 7 * (n - 1) /\ e = s + 7.
Proof.
  intros n s e; unfold week_dates.
  destruct (add_days season_start (7 * (n - 1))) as [s0|] eqn:E1; [|discriminate].
  destruct (add_days s0 7) as [e0|] eqn:E2; [|discriminate].
  intros H; injection H as <- <-.
  split; [apply add_days_Some; exact E1 | apply add_days_Some; exact E2].
Qed.

Lemma combine_map {A B C} : forall (f : A -> B) (g : A -> C) l,
  combine l (combine (map f l) (map g l)) = map (fun x => (x, (f x, g x))) l.
Proof. intros f g l; induction l as [|a l IH]; simpl; [reflexivity|]. rewrite IH; reflexivity. Qed.

Lemma get_all_weeks_shape : forall http_get api_key,
  get_all_weeks_odds_df http_get api_key =
  match season_game_data http_get api_key with
  | [] => FErr KeyError
  | all =>
      FOk (map (fun gd => mkOddsRow (gd_week gd) (gd_home gd) (inv_cell (gd_home_ml gd))
                                          (gd_away gd) (inv_cell (gd_away_ml gd))) all)
  end.
Proof.
  intros http_get api_key; unfold get_all_weeks_odds_df.
  rewrite collect_weeks_ok by exact season_weeks_dates. fold (season_game_data http_get api_key).
  destruct (season_game_data http_get api_key) as [|gd all]; [reflexivity|].
  cbv zeta. unfold inv_column.
  rewrite !map_map, combine_map, map_map. reflexivity.
Qed.

Lemma In_season_game_data : forall http_get api_key gd,
  In gd (season_game_data http_get api_key) <->
  exists w g, In w season_weeks /\ In g (fetched_games http_get api_key w) /\ gd = game_data w g.
Proof.
  intros http_get api_key gd; unfold season_game_data; rewrite in_flat_map; split.
  - intros [w [Hw Hg]]; apply in_map_iff in Hg as [g [<- Hg]]; exists w, g; auto.
  - intros [w [g [Hw [Hg ->]]]]; exists w; split; [exact Hw | apply in_map; exact Hg].
Qed.

(** *** The loops of lines 74-82 *)

Lemma fold_left_flat_map {A B S} : forall (f : S -> B -> S) (g : A -> list B) l st,
  fold_left f (flat_map g l) st = fold_left (fun st a => fold_left f (g a) st) l st.
Proof.
  intros f g l; induction l as [|a l IH]; intros st; simpl; [reflexivity|].
  rewrite fold_left_app; apply IH.
Qed.

Lemma fold_left_ext_in {A S} : forall (f g : S -> A -> S) l st,
  (forall st' a, In a l -> f st' a = g st' a) -> fold_left f l st = fold_left g l st.
Proof.
  intros f g l; induction l as [|a l IH]; intros st H; simpl; [reflexivity|].
  rewrite H by (left; reflexivity). apply IH; intros st' b Hb; apply H; right; exact Hb.
Qed.

Lemma scan_bookmakers_outcomes : forall home away st game,
  scan_bookmakers home away st (get_list (bookmakers game)) =
  scan_outcomes home away st (dk_h2h_outcomes game).
Proof.
  intros home away st game; unfold scan_bookmakers, scan_outcomes, dk_h2h_outcomes.
  rewrite fold_left_flat_map. apply fold_left_ext_in; intros st' b _.
  destruct (String.eqb (bm_key b) "draftkings"); [|reflexivity].
  unfold scan_markets, scan_outcomes. rewrite fold_left_flat_map.
  apply fold_left_ext_in; intros st'' m _.
  destruct (String.eqb (mk_key m) "h2h"); reflexivity.
Qed.

Lemma last_opt_snoc {A} : forall (l : list A) x, last_opt (l ++ [x]) = Some x.
Proof. intros l x; unfold last_opt; rewrite rev_app_distr; reflexivity. Qed.

Lemma last_price_snoc : forall p os o,
  last_price p (os ++ [o]) = if p o then Some (o_price o) else last_price p os.
Proof.
  intros p os o; unfold last_price; rewrite filter_app; simpl.
  destruct (p o); [rewrite last_opt_snoc; reflexivity | rewrite app_nil_r; reflexivity].
Qed.

Lemma scan_outcomes_last : forall home away os,
  scan_outcomes home away (None, None) os =
  (last_price (fun o => String.eqb (o_name o) home) os,
   last_price (fun o => negb (String.eqb (o_name o) home) && String.eqb (o_name o) away) os).
Proof.
  intros home away os; induction os as [|o os IH] using rev_ind; [reflexivity|].
  unfold scan_outcomes in *; rewrite fold_left_app, IH; simpl.
  rewrite !last_price_snoc.
  destruct (String.eqb (o_name o) home); simpl; [reflexivity|].
  destruct (String.eqb (o_name o) away); reflexivity.
Qed.

Lemma game_data_spec : forall w g,
  game_data w g =
  mkGameData w (home_team g) (away_team g) (commence_time g)
    (last_price (fun o => String.eqb (o_name o) (home_team g)) (dk_h2h_outcomes g))
    (last_price (fun o => negb (String.eqb (o_name o) (home_team g)) &&
                          String.eqb (o_name o) (away_team g)) (dk_h2h_outcomes g)).
Proof.
  intros w g; unfold game_data. rewrite scan_bookmakers_outcomes, scan_outcomes_last. reflexivity.
Qed.

Lemma last_price_None : forall p os, last_price p os = None <-> filter p os = [].
Proof.
  intros p os; unfold last_price, last_opt.
  destruct (filter p os) as [|o l] eqn:E; simpl; [tauto|].
  destruct (rev l ++ [o])%list eqn:E2; [|split; discriminate].
  exfalso; apply (app_cons_not_nil (rev l) [] o); symmetry; exact E2.
Qed.

End FetchFacts.

Import FetchFacts.

Module SeasonFacts.


Lemma home_ml_spec : forall w g,
  gd_home_ml (game_data w g) =
  last_price (fun o => String.eqb (o_name o) (home_team g)) (dk_h2h_outcomes g).
Proof. intros w g; rewrite game_data_spec; reflexivity. Qed.

Lemma away_ml_spec : forall w g,
  gd_away_ml (game_data w g) =
  last_price (fun o => negb (String.eqb (o_name o) (home_team g)) &&
                       String.eqb (o_name o) (away_team g)) (dk_h2h_outcomes g).
Proof. intros w g; rewrite game_data_spec; reflexivity. Qed.

(** The rows of a successful fetch, as [game_data] records. *)
Lemma odds_df_ok : forall http_get api_key df,
  get_all_weeks_odds_df http_get api_key = FOk df ->
  season_game_data http_get api_key <> [] /\
  df = map (fun gd => mkOddsRow (gd_week gd) (gd_home gd) (inv_cell (gd_home_ml gd))
                                (gd_away gd) (inv_cell (gd_away_ml gd)))
           (season_game_data http_get api_key).
Proof.
  intros http_get api_key df H; rewrite get_all_weeks_shape in H.
  destruct (season_game_data http_get api_key) as [|gd all]; [discriminate|].
  inversion H; split; [discriminate | reflexivity].
Qed.

Lemma weeks_flat_map : forall http_get api_key,
  map gd_week (season_game_data http_get api_key) =
  flat_map (fun w => map (fun _ => w) (fetched_games http_get api_key w)) season_weeks.
Proof.
  intros http_get api_key; unfold season_game_data.
  induction season_weeks as [|w ws IH]; simpl; [reflexivity|].
  rewrite map_app, IH, map_map. reflexivity.
Qed.

Lemma StronglySorted_const : forall (w : Z) (l : list Game),
  StronglySorted Z.le (map (fun _ => w) l).
Proof.
  intros w l; induction l as [|g l IH]; simpl; constructor; [exact IH|].
  apply Forall_forall; intros y Hy; apply in_map_iff in Hy as [_ [<- _]]; lia.
Qed.

Lemma blocks_sorted : forall (L : Z -> list Game) ws,
  StronglySorted Z.lt ws -> StronglySorted Z.le (flat_map (fun w => map (fun _ => w) (L w)) ws).
Proof.
  intros L ws H; induction H as [|w ws Hws IH Hw]; simpl; [constructor|].
  apply StronglySorted_app; [apply StronglySorted_const | exact IH |].
  intros x y Hx Hy. apply in_map_iff in Hx as [_ [<- _]].
  apply in_flat_map in Hy as [w' [Hw' Hy]]. apply in_map_iff in Hy as [_ [<- _]].
  rewrite Forall_forall in Hw; specialize (Hw w' Hw'); lia.
Qed.

(** The weeks of a successful fetch never decrease. *)
Lemma odds_df_weeks_sorted : forall http_get api_key df,
  get_all_weeks_odds_df http_get api_key = FOk df -> StronglySorted Z.le (map od_week df).
Proof.
  intros http_get api_key df H. destruct (odds_df_ok _ _ _ H) as [_ ->].
  rewrite map_map; simpl. rewrite <- (map_map gd_week (fun w => w)), map_id.
  rewrite weeks_flat_map. apply blocks_sorted, StronglySorted_seq.
Qed.

Lemma filter_map_comm {A B} : forall (f : A -> B) (p : B -> bool) l,
  filter p (map f l) = map f (filter (fun x => p (f x)) l).
Proof.
  intros f p l; induction l as [|a l IH]; simpl; [reflexivity|].
  destruct (p (f a)); simpl; rewrite IH; reflexivity.
Qed.

Lemma filter_flat_map {A B} : forall (g : A -> list B) (p : B -> bool) l,
  filter p (flat_map g l) = flat_map (fun a => filter p (g a)) l.
Proof.
  intros g p l; induction l as [|a l IH]; simpl; [reflexivity|].
  rewrite filter_app, IH; reflexivity.
Qed.

Lemma flat_map_select {B} : forall (F : Z -> list B) w ws,
  NoDup ws -> In w ws ->
  flat_map (fun w' => if Z.eqb w' w then F w' else []) ws = F w.
Proof.
  intros F w ws Hnd; induction Hnd as [|a ws Ha Hnd IH]; intros Hw; [destruct Hw|].
  simpl. destruct (Z.eqb_spec a w) as [->|Hne].
  - assert (Hrest : forall l, ~ In w l ->
              flat_map (fun w' => if Z.eqb w' w then F w' else []) l = []).
    { induction l as [|b l IH']; intros Hn; simpl; [reflexivity|].
      destruct (Z.eqb_spec b w) as [E|_]; [exfalso; apply Hn; left; exact E|].
      apply IH'; intros Hin; apply Hn; right; exact Hin. }
    rewrite (Hrest ws Ha), app_nil_r; reflexivity.
  - destruct Hw as [E|Hw]; [congruence|]. apply IH; exact Hw.
Qed.

(** The rows of week [w] of a successful fetch, in order. *)
Lemma odds_df_week_rows : forall http_get api_key df w,
  get_all_weeks_odds_df http_get api_key = FOk df -> In w season_weeks ->
  filter (fun r => Z.eqb (od_week r) w) df =
  map (fun g => let gd := game_data w g in
                mkOddsRow w (gd_home gd) (inv_cell (gd_home_ml gd))
                            (gd_away gd) (inv_cell (gd_away_ml gd)))
      (fetched_games http_get api_key w).
Proof.
  intros http_get api_key df w H Hw. destruct (odds_df_ok _ _ _ H) as [_ ->].
  rewrite filter_map_comm. simpl. unfold season_game_data.
  rewrite filter_flat_map.
  rewrite (flat_map_ext _ (fun w' => if Z.eqb w' w
                                     then map (game_data w') (fetched_games http_get api_key w')
                                     else [])).
  - rewrite flat_map_select by (exact season_weeks_NoDup || exact Hw).
    rewrite map_map; apply map_ext; reflexivity.
  - intros w'. rewrite filter_map_comm. simpl.
    destruct (Z.eqb w' w).
    + f_equal. induction (fetched_games http_get api_key w') as [|g gs IH]; simpl; [reflexivity|].
      rewrite IH; reflexivity.
    + induction (fetched_games http_get api_key w') as [|g gs IH]; simpl; [reflexivity|].
      exact IH.
Qed.

End SeasonFacts.

Import SeasonFacts.

Module MainFacts.

Lemma numeric_rows_weeks : forall df rows,
  numeric_rows df = Some rows -> map Week rows = map od_week df.
Proof.
  induction df as [|r df IH]; intros rows H; simpl in H.
  - inversion H; reflexivity.
  - destruct (to_row r) as [row|] eqn:Er; [|discriminate].
    destruct (numeric_rows df) as [rows'|]; [|discriminate].
    inversion H; subst; simpl. rewrite (IH rows' eq_refl). f_equal.
    unfold to_row in Er. destruct (od_home_prob r), (od_away_prob r); try discriminate.
    inversion Er; reflexivity.
Qed.

Lemma existsb_week_In : forall rows w,
  existsb (fun r => Z.eqb (Week r) w) rows = true <-> In w (map Week rows).
Proof.
  intros rows w; rewrite existsb_exists, in_map_iff; split.
  - intros [r [Hr E]]; apply Z.eqb_eq in E; exists r; auto.
  - intros [r [E Hr]]; exists r; split; [exact Hr | apply Z.eqb_eq; exact E].
Qed.

Lemma In_seq_Z : forall w a n,
  In w (map Z.of_nat (seq a n)) <-> Z.of_nat a <= w < Z.of_nat a + Z.of_nat n.
Proof.
  intros w a n; rewrite in_map_iff; split.
  - intros [k [<- Hk]]; apply in_seq in Hk; lia.
  - intros H; exists (Z.to_nat w); split; [lia | apply in_seq; lia].
Qed.

End MainFacts.

Import MainFacts.

(** ** The properties *)

(** [optimize_survivor_pool]: when the horizon can be filled, the plan
    has exactly one entry per horizon week, listed in the order of
    [remaining_weeks] (the order in which the weeks first appear in the
    table), not sorted by week. *)
Theorem optimize_one_entry_per_week :
  forall set_list solve df cw sel dur rem ms,
  set_list_ok set_list -> solver_ok solve ->
  horizon df cw dur = Some rem ->
  (List.length rem <= List.length (available_teams set_list df sel))%nat ->
  optimize_survivor_pool set_list solve df cw sel dur = Ok ms ->
  map m_week ms = rem.
Proof.
  intros set_list solve df cw sel dur rem ms Hs Hsolve Eh Hlen H.
  destruct (horizon_spec df cw dur rem Eh) as [mx [_ [Hnr _]]].
  pose proof (available_NoDup set_list df sel Hs) as Hna.
  destruct (solver_optimum set_list df sel rem solve Hsolve Hnr Hna Hlen) as [_ [Hfeas _]].
  unfold optimize_survivor_pool in H; rewrite Eh in H.
  replace (map m_week ms) with (map fst (plan_keys ms))
    by (unfold plan_keys; rewrite map_map; reflexivity).
  rewrite (collect_plan_keys set_list df sel rem _ ms H).
  apply map_fst_pairs_single. intros w Hw.
  exact (block_single set_list df sel rem _ Hna Hfeas w Hw).
Qed.

(** A table listing week 2 before week 1: the plan follows that order. *)
Lemma optimize_one_entry_per_week_witness :
  exists ms,
  optimize_survivor_pool dedup bf_solve
    [mkRow 2 "A" (6 # 10) "B" (8 # 10); mkRow 1 "A" (9 # 10) "B" (5 # 10)] 1 [] 14 = Ok ms /\
  map m_week ms = [2; 1].
Proof.
  eexists; split; [vm_compute; reflexivity|].
  apply (optimize_one_entry_per_week dedup bf_solve
           [mkRow 2 "A" (6 # 10) "B" (8 # 10); mkRow 1 "A" (9 # 10) "B" (5 # 10)] 1 [] 14).
  - apply dedup_ok.
  - apply bf_solve_ok.
  - vm_compute; reflexivity.
  - apply Nat.leb_le; vm_compute; reflexivity.
  - vm_compute; reflexivity.
Defined.

(** [optimize_survivor_pool]: with fewer available teams than horizon
    weeks, the program of lines 113-133 has no feasible point, so an
    exact solver cannot report [Optimal] (the code then only prints the
    status and reads the solver's values anyway). *)
Theorem optimize_infeasible_when_short :
  forall set_list solve df cw sel dur rem,
  solver_ok solve ->
  horizon df cw dur = Some rem ->
  (List.length (available_teams set_list df sel) < List.length rem)%nat ->
  (forall v, feasibleb (problem set_list df sel rem) v = false) /\
  fst (solve (problem set_list df sel rem)) <> Optimal.
Proof.
  intros set_list solve df cw sel dur rem Hsolve Eh Hlt.
  assert (Hno : forall v, feasibleb (problem set_list df sel rem) v = false).
  { intros v. destruct (feasibleb _ v) eqn:Ef; [exfalso|reflexivity].
    apply feasibleb_iff in Ef as [_ [Hteam Hweek]].
    set (avail := available_teams set_list df sel) in *.
    pose proof (sumZ_swap (fun w t => v (w, t)) rem avail) as Hswap.
    rewrite (sumZ_ext_in _ (fun _ => 1) rem) in Hswap by exact Hweek.
    rewrite sumZ_ones in Hswap.
    assert (Hle : sumZ (map (fun t => sumZ (map (fun w => v (w, t)) rem)) avail) <=
                  sumZ (map (fun _ => 1) avail)) by (apply sumZ_le; exact Hteam).
    rewrite sumZ_ones in Hle. lia. }
  split; [exact Hno|].
  intros Hopt. destruct (Hsolve (problem set_list df sel rem)) as [_ H].
  destruct (H Hopt) as [Hf _]. rewrite Hno in Hf; discriminate.
Qed.

Lemma optimize_infeasible_when_short_witness :
  (forall v, feasibleb (problem dedup table_example ["A"] [1; 2]) v = false) /\
  fst (bf_solve (problem dedup table_example ["A"] [1; 2])) <> Optimal.
Proof.
  apply (optimize_infeasible_when_short dedup bf_solve table_example 1 ["A"] 14 [1; 2]).
  - apply bf_solve_ok.
  - vm_compute; reflexivity.
  - apply Nat.ltb_lt; vm_compute; reflexivity.
Defined.

(** [get_weekly_odds]: each week's request window is seven days long
    and ends at the instant where the next week's window starts
    (the [commenceTimeTo] of week [n] is the [commenceTimeFrom] of week
    [n + 1]). *)
Theorem weekly_windows_abut :
  forall api_key n s e s' e',
  week_dates n = Some (s, e) -> week_dates (n + 1) = Some (s', e') ->
  e = s + 7 /\ s' = e /\
  exists t, In ("commenceTimeTo", t) (weekly_params api_key s e) /\
            In ("commenceTimeFrom", t) (weekly_params api_key s' e').
Proof.
  intros api_key n s e s' e' H1 H2.
  apply week_dates_Some in H1 as [Hs He]; apply week_dates_Some in H2 as [Hs' He'].
  assert (E : s' = e) by (subst; lia).
  split; [exact He|]. split; [exact E|].
  exists (isoformat e ++ "Z"). unfold weekly_params. rewrite E.
  split; [do 6 right; left; reflexivity | do 5 right; left; reflexivity].
Qed.

Lemma weekly_windows_abut_witness :
  week_dates 1 = Some (739134, 739141) /\ week_dates 2 = Some (739141, 739148) /\
  (739141 = 739134 + 7 /\ 739141 = 739141 /\
   exists t, In ("commenceTimeTo", t) (weekly_params API_KEY 739134 739141) /\
             In ("commenceTimeFrom", t) (weekly_params API_KEY 739141 739148)).
Proof.
  split; [vm_compute; reflexivity|]. split; [vm_compute; reflexivity|].
  apply (weekly_windows_abut API_KEY 1 739134 739141 739141 739148);
    vm_compute; reflexivity.
Defined.


(** [get_all_weeks_odds_df]: the rows of a successful call come week by
    week (the [Week] column never decreases and stays within 1..18), and
    the rows of week [w] are the games the week-[w] request returned, in
    the reply's order (none when the request failed). *)
Theorem get_all_weeks_odds_df_rows :
  forall http_get api_key df,
  get_all_weeks_odds_df http_get api_key = FOk df ->
  Sorted Z.le (map od_week df) /\
  (forall r, In r df -> 1 <= od_week r <= 18) /\
  (forall w, In w season_weeks ->
     map (fun r => (od_home r, od_away r)) (filter (fun r => Z.eqb (od_week r) w) df) =
     map (fun g => (home_team g, away_team g)) (fetched_games http_get api_key w)).
Proof.
  intros http_get api_key df H.
  split; [apply StronglySorted_Sorted, (odds_df_weeks_sorted _ _ _ H)|].
  split.
  - intros r Hr. destruct (odds_df_ok _ _ _ H) as [_ Edf]. rewrite Edf in Hr.
    apply in_map_iff in Hr as [gd [<- Hgd]].
    apply In_season_game_data in Hgd as [w [g [Hw [_ ->]]]].
    exact (season_weeks_range w Hw).
  - intros w Hw. rewrite (odds_df_week_rows _ _ _ w H Hw), map_map.
    apply map_ext; reflexivity.
Qed.

Lemma get_all_weeks_odds_df_rows_witness :
  get_all_weeks_odds_df sample_http "k" =
    FOk [mkOddsRow 1 "A" (PNum (4 # 5)) "B" (PNum (1 # 4));
         mkOddsRow 2 "C" (PNum (1 # 2)) "A" (PNum (1 # 2))] /\
  (Sorted Z.le (map od_week [mkOddsRow 1 "A" (PNum (4 # 5)) "B" (PNum (1 # 4));
                             mkOddsRow 2 "C" (PNum (1 # 2)) "A" (PNum (1 # 2))]) /\
   (forall r, In r [mkOddsRow 1 "A" (PNum (4 # 5)) "B" (PNum (1 # 4));
                    mkOddsRow 2 "C" (PNum (1 # 2)) "A" (PNum (1 # 2))] -> 1 <= od_week r <= 18) /\
   (forall w, In w season_weeks ->
      map (fun r => (od_home r, od_away r))
        (filter (fun r => Z.eqb (od_week r) w)
           [mkOddsRow 1 "A" (PNum (4 # 5)) "B" (PNum (1 # 4));
            mkOddsRow 2 "C" (PNum (1 # 2)) "A" (PNum (1 # 2))]) =
      map (fun g => (home_team g, away_team g)) (fetched_games sample_http "k" w))).
Proof.
  split; [vm_compute; reflexivity|].
  apply (get_all_weeks_odds_df_rows sample_http "k"). vm_compute; reflexivity.
Defined.

(** [get_all_weeks_odds_df]: every row of a successful call is a game
    some week's request returned, with [1 / price] of the last
    DraftKings [h2h] outcome named after its home team, and of the last
    one named after its away team (but not its home team); other
    bookmakers and other markets are ignored, a missing price gives
    [NaN] and a zero price [inf]. *)
Theorem get_all_weeks_odds_df_prices :
  forall http_get api_key df r,
  get_all_weeks_odds_df http_get api_key = FOk df -> In r df ->
  exists w g, In w season_weeks /\ In g (fetched_games http_get api_key w) /\
    r = mkOddsRow w (home_team g)
          (inv_cell (last_price (fun o => String.eqb (o_name o) (home_team g))
                                (dk_h2h_outcomes g)))
          (away_team g)
          (inv_cell (last_price (fun o => negb (String.eqb (o_name o) (home_team g)) &&
                                          String.eqb (o_name o) (away_team g))
                                (dk_h2h_outcomes g))).
Proof.
  intros http_get api_key df r H Hr.
  destruct (odds_df_ok _ _ _ H) as [_ Edf]. rewrite Edf in Hr.
  apply in_map_iff in Hr as [gd [<- Hgd]].
  apply In_season_game_data in Hgd as [w [g [Hw [Hg ->]]]].
  exists w, g; split; [exact Hw|]; split; [exact Hg|].
  rewrite home_ml_spec, away_ml_spec. reflexivity.
Qed.

(** On the sample API the week-1 row takes DraftKings' [h2h] prices
    (5/4 and 4), not FanDuel's or the spread's. *)
Lemma get_all_weeks_odds_df_prices_witness :
  exists w g, In w season_weeks /\ In g (fetched_games sample_http "k" w) /\
    mkOddsRow 1 "A" (PNum (4 # 5)) "B" (PNum (1 # 4)) =
    mkOddsRow w (home_team g)
      (inv_cell (last_price (fun o => String.eqb (o_name o) (home_team g))
                            (dk_h2h_outcomes g)))
      (away_team g)
      (inv_cell (last_price (fun o => negb (String.eqb (o_name o) (home_team g)) &&
                                      String.eqb (o_name o) (away_team g))
                            (dk_h2h_outcomes g))).
Proof.
  apply (get_all_weeks_odds_df_prices sample_http "k"
           [mkOddsRow 1 "A" (PNum (4 # 5)) "B" (PNum (1 # 4));
            mkOddsRow 2 "C" (PNum (1 # 2)) "A" (PNum (1 # 2))]).
  - vm_compute; reflexivity.
  - left; reflexivity.
Defined.

(** The script (lines 171-182): when the fetched frame has numeric
    probabilities, the horizon of the call
    [optimize_survivor_pool(nfl_odds_df, 1, [], 14)] is exactly the weeks
    1..14 that have at least one game, in increasing order. *)
Theorem main_horizon :
  forall http_get api_key df rows,
  get_all_weeks_odds_df http_get api_key = FOk df ->
  numeric_rows df = Some rows ->
  horizon rows main_current_week main_optimization_duration =
  Some (filter (fun w => existsb (fun r => Z.eqb (Week r) w) rows) (map Z.of_nat (seq 1 14))).
Proof.
  intros http_get api_key df rows H Hn.
  pose proof (numeric_rows_weeks _ _ Hn) as Ew.
  pose proof (odds_df_weeks_sorted _ _ _ H) as Hsort. rewrite <- Ew in Hsort.
  destruct (odds_df_ok _ _ _ H) as [Hne Edf].
  assert (Hmx : exists mx, py_max (weeks rows) = Some mx).
  { unfold weeks, unique. destruct (map Week rows) as [|z l] eqn:Emw.
    - exfalso. apply Hne. rewrite Edf in Ew. rewrite Ew in Emw.
      destruct (season_game_data http_get api_key); [reflexivity | discriminate].
    - simpl. eexists; reflexivity. }
  destruct Hmx as [mx Emx].
  assert (Eh : horizon rows main_current_week main_optimization_duration =
               Some (remaining_weeks_upto rows main_current_week
                       (Z.min (main_current_week + main_optimization_duration - 1) mx)))
    by (unfold horizon; rewrite Emx; reflexivity).
  rewrite Eh. f_equal.
  destruct (horizon_spec rows _ _ _ Eh) as [mx' [Emx' [_ Hrem]]].
  rewrite Emx in Emx'; injection Emx' as <-.
  apply StronglySorted_lt_eq.
  - unfold remaining_weeks_upto, weeks, unique.
    apply StronglySorted_filter, unique_aux_sorted; exact Hsort.
  - apply StronglySorted_filter, StronglySorted_seq.
  - intros w. rewrite Hrem, filter_In, existsb_week_In.
    unfold main_current_week, main_optimization_duration.
    assert (Hle : In w (map Week rows) -> w <= mx).
    { intros Hw. apply (py_max_In (weeks rows) mx Emx).
      unfold weeks, unique; apply unique_aux_In; split; [exact Hw | intros []]. }
    rewrite In_seq_Z. split.
    + intros [Hw Hr]. split; [lia | exact Hw].
    + intros [Hk Hw]. specialize (Hle Hw). split; [exact Hw | lia].
Qed.

Lemma main_horizon_witness :
  horizon [mkRow 1 "A" (4 # 5) "B" (1 # 4); mkRow 2 "C" (1 # 2) "A" (1 # 2)]
    main_current_week main_optimization_duration =
  Some (filter (fun w => existsb (fun r => Z.eqb (Week r) w)
                          [mkRow 1 "A" (4 # 5) "B" (1 # 4); mkRow 2 "C" (1 # 2) "A" (1 # 2)])
               (map Z.of_nat (seq 1 14))).
Proof.
  apply (main_horizon sample_http "k"
           [mkOddsRow 1 "A" (PNum (4 # 5)) "B" (PNum (1 # 4));
            mkOddsRow 2 "C" (PNum (1 # 2)) "A" (PNum (1 # 2))]).
  - vm_compute; reflexivity.
  - vm_compute; reflexivity.
Defined.

(** ** Sums of rationals and the objective of clean tables *)

Module QSumFacts.

Local Open Scope Q_scope.

Lemma Qsum_nil : Qsum [] = 0%Q.
Proof. reflexivity. Qed.

Lemma Qsum_cons : forall x l, Qsum (x :: l) = (x + Qsum l)%Q.
Proof. reflexivity. Qed.

Lemma Qsum_ext : forall {A} (f g : A -> Q) l,
  (forall x, In x l -> f x == g x) -> Qsum (map f l) == Qsum (map g l).
Proof.
  intros A f g l; induction l as [|a l IH]; intros H; [reflexivity|].
  cbn [map]; rewrite !Qsum_cons. apply Qplus_comp.
  - apply H; left; reflexivity.
  - apply IH; intros x Hx; apply H; right; exact Hx.
Qed.

Lemma Qsum_zero : forall {A} (f : A -> Q) l,
  (forall x, In x l -> f x == 0) -> Qsum (map f l) == 0.
Proof.
  intros A f l; induction l as [|a l IH]; intros H; [reflexivity|].
  cbn [map]; rewrite Qsum_cons, IH by (intros x Hx; apply H; right; exact Hx).
  rewrite H by (left; reflexivity). reflexivity.
Qed.

Lemma Qsum_add : forall {A} (f g : A -> Q) l,
  Qsum (map (fun x => f x + g x) l) == Qsum (map f l) + Qsum (map g l).
Proof.
  intros A f g l; induction l as [|a l IH]; [reflexivity|].
  cbn [map]; rewrite !Qsum_cons, IH. ring.
Qed.

Lemma Qsum_scale : forall {A} (c : Q) (f : A -> Q) l,
  Qsum (map (fun x => c * f x) l) == c * Qsum (map f l).
Proof.
  intros A c f l; induction l as [|a l IH]; [cbn; ring|].
  cbn [map]; rewrite !Qsum_cons, IH. ring.
Qed.

Lemma Qsum_swap : forall {A B} (f : A -> B -> Q) la lb,
  Qsum (map (fun a => Qsum (map (f a) lb)) la) ==
  Qsum (map (fun b => Qsum (map (fun a => f a b) la)) lb).
Proof.
  intros A B f la lb; induction la as [|a la IH].
  - cbn [map]. rewrite Qsum_zero by (intros; reflexivity). reflexivity.
  - cbn [map]. rewrite Qsum_cons, IH, <- Qsum_add.
    apply Qsum_ext; intros b _. cbn [map]; rewrite Qsum_cons; reflexivity.
Qed.

Lemma Qsum_filter : forall {A} (p : A -> bool) (f : A -> Q) l,
  Qsum (map (fun x => if p x then f x else 0) l) == Qsum (map f (filter p l)).
Proof.
  intros A p f l; induction l as [|a l IH]; [reflexivity|].
  cbn [map filter]. destruct (p a); cbn [map]; rewrite !Qsum_cons, IH; [reflexivity|].
  apply Qplus_0_l.
Qed.

Lemma Qsum_indicator : forall l k, NoDup l ->
  Qsum (map (fun a => if key_eqb a k then 1 else 0) l) == inject_Z (indicator l k).
Proof.
  intros l k Hnd; unfold indicator.
  induction Hnd as [|a l Ha Hnd IH]; [reflexivity|].
  cbn [map existsb]; rewrite Qsum_cons.
  destruct (key_eqb a k) eqn:E.
  - apply key_eqb_eq in E; subst a.
    rewrite (proj2 (key_eqb_eq k k) eq_refl); cbn [orb].
    rewrite Qsum_zero; [reflexivity|].
    intros x Hx. destruct (key_eqb x k) eqn:Ex; [|reflexivity].
    apply key_eqb_eq in Ex; subst x; contradiction.
  - assert (E' : key_eqb k a = false).
    { destruct (key_eqb k a) eqn:Ek; [|reflexivity].
      apply key_eqb_eq in Ek; subst a. rewrite (proj2 (key_eqb_eq k k) eq_refl) in E.
      discriminate. }
    rewrite E'; cbn [orb]. rewrite IH. apply Qplus_0_l.
Qed.

Lemma obj_eval_app : forall l1 l2 v,
  obj_eval (l1 ++ l2) v == obj_eval l1 v + obj_eval l2 v.
Proof.
  intros l1 l2 v; induction l1 as [|[c k] l1 IH]; cbn [app obj_eval]; [ring|].
  rewrite IH; ring.
Qed.

Lemma obj_eval_flat_map : forall {A} (F : A -> list (Q * key)) l v,
  obj_eval (flat_map F l) v == Qsum (map (fun x => obj_eval (F x) v) l).
Proof.
  intros A F l v; induction l as [|a l IH]; [reflexivity|].
  cbn [flat_map map]; rewrite obj_eval_app, IH, Qsum_cons; reflexivity.
Qed.

Lemma find_filter : forall {A} (p : A -> bool) l, find p l = hd_error (filter p l).
Proof.
  intros A p l; induction l as [|a l IH]; [reflexivity|].
  cbn [find filter]; destruct (p a); [reflexivity | exact IH].
Qed.

End QSumFacts.

Import QSumFacts.

Module CleanFacts.

Local Open Scope Q_scope.

Lemma row_weight_split : forall g k, HomeTeam g <> AwayTeam g ->
  row_weight g k ==
  HomeProbability g * (if key_eqb k (Week g, HomeTeam g) then 1 else 0) +
  AwayProbability g * (if key_eqb k (Week g, AwayTeam g) then 1 else 0).
Proof.
  intros g [w t] Hne; unfold row_weight, game_matches, key_eqb; cbn [fst snd].
  destruct (Z.eqb_spec (Week g) w), (Z.eqb_spec w (Week g));
  destruct (String.eqb_spec (HomeTeam g) t), (String.eqb_spec (AwayTeam g) t);
  destruct (String.eqb_spec t (HomeTeam g)), (String.eqb_spec t (AwayTeam g));
  cbn [andb orb]; try (exfalso; congruence); ring.
Qed.

Section Clean.
Variable set_list : list string -> list string.
Variable df : list Row.
Variable sel : list string.
Variable rem : list Z.
Hypothesis Hs : set_list_ok set_list.
Hypothesis Hclean : forall g, In g df -> In (Week g) rem ->
  ~ In (HomeTeam g) sel /\ ~ In (AwayTeam g) sel /\ HomeTeam g <> AwayTeam g.
Hypothesis Honce : forall w t, In w rem ->
  (List.length (filter (game_matches w t) df) <= 1)%nat.

Let avail := available_teams set_list df sel.

Lemma row_teams_avail : forall g, In g df -> In (Week g) rem ->
  In (HomeTeam g) avail /\ In (AwayTeam g) avail.
Proof.
  intros g Hg Hw. destruct (Hclean g Hg Hw) as [Hh [Ha _]].
  unfold avail; rewrite !available_In; unfold teams; rewrite !(proj2 (Hs _)).
  split; split; try assumption; apply in_or_app; [left | right]; apply in_map; exact Hg.
Qed.

Lemma objective_rows : forall asg, assignment_ok rem avail asg ->
  objective (problem set_list df sel rem) (indicator asg) ==
  Qsum (map (fun g => Qsum (map (row_weight g) asg)) df).
Proof.
  intros asg [Hf [Hnd1 _]].
  assert (Hnd : NoDup asg) by (eapply NoDup_map_inv; exact Hnd1).
  unfold objective, problem; cbn [lp_obj]. unfold objective_terms.
  rewrite obj_eval_flat_map. apply Qsum_ext. intros g Hg.
  destruct (mem_Z (Week g) rem) eqn:Ew.
  - apply mem_Z_In in Ew.
    destruct (Hclean g Hg Ew) as [_ [_ Hne]].
    destruct (row_teams_avail g Hg Ew) as [Ah Aa]. unfold avail in Ah, Aa.
    rewrite (proj2 (mem_str_In _ _) Ah), (proj2 (mem_str_In _ _) Aa).
    rewrite (proj2 (in_x_iff set_list df sel rem _ _) (conj Ew Ah)).
    rewrite (proj2 (in_x_iff set_list df sel rem _ _) (conj Ew Aa)).
    cbn [andb obj_eval].
    rewrite (Qsum_ext _ _ _ (fun k _ => row_weight_split g k Hne)).
    rewrite Qsum_add, !Qsum_scale, !Qsum_indicator by exact Hnd. ring.
  - cbn [andb obj_eval]. symmetry. apply Qsum_zero.
    intros [w t] Hk. rewrite Forall_forall in Hf. destruct (Hf _ Hk) as [Hw _].
    cbn [fst] in Hw. unfold row_weight, game_matches; cbn [fst snd].
    destruct (Z.eqb_spec (Week g) w) as [E|_]; [|reflexivity].
    rewrite E in Ew. apply mem_Z_In in Hw; congruence.
Qed.

Lemma rows_weight : forall w t, In w rem -> In t avail ->
  Qsum (map (fun g => row_weight g (w, t)) df) == weight_or_0 df sel (w, t).
Proof.
  intros w t Hw Ht. unfold row_weight; cbn [fst snd].
  rewrite Qsum_filter. unfold weight_or_0, spec_edge_weight; cbn [fst snd].
  destruct (mem_str t sel) eqn:E.
  - apply mem_str_In in E. unfold avail in Ht; apply available_In in Ht. tauto.
  - rewrite find_filter. pose proof (Honce w t Hw) as Hl.
    destruct (filter (game_matches w t) df) as [|g0 [|g1 l]]; cbn [hd_error map].
    + reflexivity.
    + rewrite Qsum_cons, Qsum_nil. apply Qplus_0_r.
    + cbn [List.length] in Hl; lia.
Qed.

Lemma objective_spec_total : forall asg, assignment_ok rem avail asg ->
  objective (problem set_list df sel rem) (indicator asg) == spec_total df sel asg.
Proof.
  intros asg Hasg. rewrite objective_rows by exact Hasg.
  rewrite Qsum_swap. unfold spec_total. apply Qsum_ext.
  intros [w t] Hk. destruct Hasg as [Hf _]. rewrite Forall_forall in Hf.
  destruct (Hf _ Hk) as [Hw Ht]. apply rows_weight; assumption.
Qed.

End Clean.

Lemma plan_spec_total : forall set_list df sel rem v ms,
  collect_metrics set_list df sel rem v = Ok ms ->
  plan_total ms = spec_total df sel (plan_keys ms).
Proof.
  intros set_list df sel rem v ms H.
  unfold plan_total, spec_total, plan_keys, Qsum. rewrite map_map. f_equal.
  apply map_ext_in. intros m Hm.
  destruct (collect_Ok_In set_list df sel rem v ms m H Hm) as [_ [Ht [_ Hmk]]].
  apply available_In in Ht as [_ Hsel].
  apply make_metric_Ok in Hmk as [g [Ef Em]].
  unfold weight_or_0, spec_edge_weight; cbn [fst snd].
  destruct (mem_str (m_selected_team m) sel) eqn:E;
    [apply mem_str_In in E; contradiction|].
  rewrite Em in Ef |- *; cbn [m_week m_selected_team m_selected_prob] in Ef |- *.
  rewrite Ef. reflexivity.
Qed.

End CleanFacts.

Import CleanFacts.

(** [optimize_survivor_pool] (lines 106-166): when the horizon can be
    filled, no excluded team plays in a horizon week, no event has the
    same team on both sides and no team plays twice in a horizon week,
    no assignment of distinct available teams to the horizon weeks has a
    larger total success probability (the sum of its teams' probabilities
    in their games of those weeks) than the returned plan. *)
Theorem optimize_maximizes_total_when_clean :
  forall set_list solve df cw sel dur rem ms,
  set_list_ok set_list -> solver_ok solve ->
  horizon df cw dur = Some rem ->
  (List.length rem <= List.length (available_teams set_list df sel))%nat ->
  (forall g, In g df -> In (Week g) rem ->
     ~ In (HomeTeam g) sel /\ ~ In (AwayTeam g) sel /\ HomeTeam g <> AwayTeam g) ->
  (forall w t, In w rem -> (List.length (filter (game_matches w t) df) <= 1)%nat) ->
  optimize_survivor_pool set_list solve df cw sel dur = Ok ms ->
  forall asg, assignment_ok rem (available_teams set_list df sel) asg ->
    Qle (spec_total df sel asg) (plan_total ms).
Proof.
  intros set_list solve df cw sel dur rem ms Hs Hsolve Eh Hlen Hclean Honce H.
  destruct (horizon_spec df cw dur rem Eh) as [mx [_ [Hnr _]]].
  pose proof (available_NoDup set_list df sel Hs) as Hna.
  destruct (solver_optimum set_list df sel rem solve Hsolve Hnr Hna Hlen)
    as [_ [Hfeas Hopt]].
  unfold optimize_survivor_pool in H; rewrite Eh in H.
  set (v := snd (solve (problem set_list df sel rem))) in *.
  pose proof (collect_plan_keys set_list df sel rem v ms H) as Hpk.
  pose proof (plan_spec_total set_list df sel rem v ms H) as Etot.
  intros asg Hasg.
  assert (Hplan : assignment_ok rem (available_teams set_list df sel) (plan_keys ms)).
  { rewrite Hpk. exact (plan_is_assignment set_list df sel rem v Hnr Hna Hfeas). }
  assert (Eobj : objective (problem set_list df sel rem) (indicator (plan_keys ms)) =
                 objective (problem set_list df sel rem) v).
  { apply objective_ext. intros [w t] Hk.
    apply lp_vars_problem in Hk as [Hw Ht]; simpl in Hw, Ht.
    rewrite Hpk. exact (indicator_pairs set_list df sel rem v Hfeas w t Hw Ht). }
  rewrite Etot.
  rewrite <- (objective_spec_total set_list df sel rem Hs Hclean Honce asg Hasg).
  rewrite <- (objective_spec_total set_list df sel rem Hs Hclean Honce _ Hplan).
  rewrite Eobj. apply Hopt; exact Hasg.
Qed.

Lemma optimize_maximizes_total_when_clean_witness :
  exists ms,
  optimize_survivor_pool dedup bf_solve table_example 1 [] 2 = Ok ms /\
  forall asg, assignment_ok [1; 2] (available_teams dedup table_example []) asg ->
    Qle (spec_total table_example [] asg) (plan_total ms).
Proof.
  eexists; split; [vm_compute; reflexivity|].
  apply (optimize_maximizes_total_when_clean dedup bf_solve table_example 1 [] 2 [1; 2]).
  - apply dedup_ok.
  - apply bf_solve_ok.
  - vm_compute; reflexivity.
  - apply Nat.leb_le; vm_compute; reflexivity.
  - intros g Hg _. simpl in Hg.
    destruct Hg as [<- | [<- | []]]; cbn;
      (split; [intros [] | split; [intros [] | discriminate]]).
  - intros w t Hw. simpl in Hw. destruct Hw as [<- | [<- | []]];
      unfold table_example, game_matches; cbn [filter Week HomeTeam AwayTeam];
      destruct (String.eqb "A" t || String.eqb "B" t); simpl; lia.
  - vm_compute; reflexivity.
Defined.

(** ** The frame as fetched and the frame of numbers *)

Module FrameFacts.







Section SameTeams.
Variables (set_list : list string -> list string) (df1 df2 : list Row) (sel : list string).
Hypothesis Hh : map HomeTeam df1 = map HomeTeam df2.
Hypothesis Ha : map AwayTeam df1 = map AwayTeam df2.





End SameTeams.





Section Numeric.
Variables (set_list : list string -> list string) (df : list OddsRow) (rows : list Row)
          (sel : list string).
Hypothesis Hdr : Forall2 (fun d r => to_row d = Some r) df rows.






End Numeric.

End FrameFacts.

Import FrameFacts.


